(** * CampoMinado: the board generator and the game state machine of App.tsx

    A shallow embedding of [generateBoard], [revealCell] and [toggleFlag]
    (src/src/App.tsx) and the properties of the specification proved, or
    refuted, on it; then [resetGame], [renderCell], [boardDisplay] and the
    banners, and further properties of the whole component.

    Conventions of the embedding.
    - A JavaScript [number] used as a size, a counter or an index is a [Z].
    - An array is a [list]; [a[i]] is [at_index a i], which is [None]
      (JavaScript's [undefined]) outside [0, length).
    - Reading a property of [undefined] throws a [TypeError]: code that can
      throw returns a [result].
    - The randomness is handed over by the caller.  The placement loop
      reads [Math.random()] only through [Math.floor(Math.random() * size)],
      a binary64 computation that is not modelled: the random source is
      the list of the successive pairs [(row, col)] of indices that the two
      expressions of lines 26 and 27 evaluate to, one pair for each turn of
      the loop.  For [size > 0] such an index is an integer of [0, size)
      ([Math.random()] is below 1 and the rounded product stays below
      [size]); this is [validRnd], a hypothesis wherever it is needed.
      When the list runs out while the loop is still running, the model
      answers [None] (no result yet).
    - The component state is passed explicitly.  React renders between two
      events, so a handler sees the state the previous handler left; the
      cell objects that [[...board]] shares with the old board are the ones
      the new state holds, and the old board is not read again. *)

From Stdlib Require Import ZArith Lia.
From stdpp Require Import base tactics option list list_numbers.
From stdpp Require Import strings pretty.

Local Open Scope Z_scope.

(** ** Cells and boards *)

Record Cell : Type := mkCell {
  revealed : bool;
  mine : bool;
  adjacentMines : Z;
  flagged : bool
}.

Abbreviation Board := (list (list Cell)).

Definition BOARD_SIZE : Z := 10.
Definition TOTAL_MINES : Z := 15.

(** Assignments to one property of a cell object. *)
Definition set_revealed (v : bool) (c : Cell) : Cell :=
  mkCell v (mine c) (adjacentMines c) (flagged c).
Definition set_mine (v : bool) (c : Cell) : Cell :=
  mkCell (revealed c) v (adjacentMines c) (flagged c).
Definition set_adjacentMines (v : Z) (c : Cell) : Cell :=
  mkCell (revealed c) (mine c) v (flagged c).
Definition set_flagged (v : bool) (c : Cell) : Cell :=
  mkCell (revealed c) (mine c) (adjacentMines c) v.

(** ** Exceptions *)

Inductive exn : Type := TypeError.

Inductive result (A : Type) : Type :=
| Ok (a : A)
| Throw (e : exn).
Arguments Ok {A} a.
Arguments Throw {A} e.

Definition bind {A B} (m : result A) (k : A -> result B) : result B :=
  match m with
  | Ok a => k a
  | Throw e => Throw e
  end.

Notation "'do' x <- m ; k" := (bind m (fun x => k))
  (at level 10, x name, m at level 100, k at level 200).

(** ** Array access *)

(** [a[i]]: the element, or [undefined] when [i] is not an index of [a]. *)
Definition at_index {A} (a : list A) (i : Z) : option A :=
  if 0 <=? i then a !! Z.to_nat i else None.

(** [board[row][col]] followed by a property access: [board[row]] undefined
    makes [undefined[col]] throw, and [board[row][col]] undefined makes the
    property access throw. *)
Definition cellAt (board : Board) (row col : Z) : result Cell :=
  match at_index board row with
  | None => Throw TypeError
  | Some r =>
      match at_index r col with
      | None => Throw TypeError
      | Some c => Ok c
      end
  end.

(** [board[row][col].p = v]: the cell object is updated in place; the rows
    and the cells of a board are distinct objects, so no other position
    changes. *)
Definition alterCell (f : Cell -> Cell) (board : Board) (row col : Z)
  : result Board :=
  do _ <- cellAt board row col;
  Ok (alter (alter f (Z.to_nat col)) (Z.to_nat row) board).

(** A loop whose body can throw: [for], [while] over a known range, and
    [Array.prototype.forEach]. *)
Fixpoint forEach {A St} (body : St -> A -> result St) (l : list A) (s : St)
  : result St :=
  match l with
  | [] => Ok s
  | x :: l' => do s' <- body s x; forEach body l' s'
  end.

(** ** generateBoard *)

Definition emptyCell : Cell := mkCell false false 0 false.

(** [Array.from({ length: size }, ...)]: a negative length counts as 0. *)
Definition emptyBoard (size : Z) : Board :=
  replicate (Z.to_nat size) (replicate (Z.to_nat size) emptyCell).

(** The placement loop [while (placedMines < mines)].  The head of [rnd]
    is the pair of indices that the two [Math.floor(Math.random() * size)]
    of this turn evaluate to.  [placed] is a ghost log of the positions at
    which [board[row][col].mine = true] was executed, in order; the code
    does not have it and nothing reads it. *)
Fixpoint placeMines (size mines : Z) (rnd : list (Z * Z)) (board : Board)
    (placedMines : Z) (placed : list (Z * Z)) {struct rnd}
  : option (result (Board * list (Z * Z))) :=
  if placedMines <? mines then
    match rnd with
    | [] => None
    | (row, col) :: rnd' =>
        match cellAt board row col with
        | Throw e => Some (Throw e)
        | Ok c =>
            if negb (mine c) then
              match alterCell (set_mine true) board row col with
              | Throw e => Some (Throw e)
              | Ok board' =>
                  placeMines size mines rnd' board' (placedMines + 1)
                             (placed ++ [(row, col)])
              end
            else placeMines size mines rnd' board placedMines placed
        end
    end
  else Some (Ok (board, placed)).

Definition adjacentCells : list (Z * Z) :=
  [(-1, -1); (-1, 0); (-1, 1);
   (0, -1);           (0, 1);
   (1, -1);  (1, 0);  (1, 1)].

(** The callback of [adjacentCells.forEach]. *)
Definition adjacentStep (size : Z) (board : Board) (row col : Z)
    (adjacentMinesCount : Z) (d : Z * Z) : result Z :=
  let '(dx, dy) := d in
  let newRow := row + dx in
  let newCol := col + dy in
  if (0 <=? newRow) && (newRow <? size) && (0 <=? newCol) && (newCol <? size)
  then
    do c <- cellAt board newRow newCol;
    Ok (if mine c then adjacentMinesCount + 1 else adjacentMinesCount)
  else Ok adjacentMinesCount.

(** The body of the inner [for (col ...)] loop. *)
Definition colStep (size row : Z) (board : Board) (col : Z) : result Board :=
  do c <- cellAt board row col;
  if mine c then Ok board
  else
    do adjacentMinesCount <-
       forEach (adjacentStep size board row col) adjacentCells 0;
    alterCell (set_adjacentMines adjacentMinesCount) board row col.

(** The body of the outer [for (row ...)] loop. *)
Definition rowStep (size : Z) (board : Board) (row : Z) : result Board :=
  forEach (colStep size row) (seqZ 0 size) board.

Definition calculateAdjacent (size : Z) (board : Board) : result Board :=
  forEach (rowStep size) (seqZ 0 size) board.

Definition generateBoard (size mines : Z) (rnd : list (Z * Z))
  : option (result Board) :=
  match placeMines size mines rnd (emptyBoard size) 0 [] with
  | None => None
  | Some (Throw e) => Some (Throw e)
  | Some (Ok (board, _)) => Some (calculateAdjacent size board)
  end.

(** ** The component state and its two handlers *)

Record GameState : Type := mkState {
  board : Board;
  gameOver : bool;
  gameWon : bool;
  flags : Z
}.

(** [useState(generateBoard(BOARD_SIZE, TOTAL_MINES))], [useState(false)],
    [useState(false)], [useState(TOTAL_MINES)]; [resetGame] sets the same
    four values. *)
Definition newGame (rnd : list (Z * Z)) : option (result GameState) :=
  match generateBoard BOARD_SIZE TOTAL_MINES rnd with
  | None => None
  | Some (Throw e) => Some (Throw e)
  | Some (Ok b) => Some (Ok (mkState b false false TOTAL_MINES))
  end.

(** [newBoard.every(row => row.every(cell => cell.revealed || cell.mine))] *)
Definition allSafeRevealed (b : Board) : bool :=
  forallb (forallb (fun cell => revealed cell || mine cell)) b.

(** A handler returns the state its [set...] calls leave behind.  Both
    handlers can throw only before their first [set...] call and before
    they change a cell, so a [Throw] leaves the state as it was. *)
Definition revealCell (st : GameState) (row col : Z) : result GameState :=
  if gameOver st || gameWon st then Ok st
  else
    do c <- cellAt (board st) row col;
    if revealed c || flagged c then Ok st
    else
      do newBoard <- alterCell (set_revealed true) (board st) row col;
      do c' <- cellAt newBoard row col;
      if mine c' then Ok (mkState newBoard true (gameWon st) (flags st))
      else if allSafeRevealed newBoard
           then Ok (mkState newBoard (gameOver st) true (flags st))
           else Ok (mkState newBoard (gameOver st) (gameWon st) (flags st)).

Definition toggleFlag (st : GameState) (row col : Z) : result GameState :=
  if gameOver st || gameWon st then Ok st
  else
    do c <- cellAt (board st) row col;
    if revealed c then Ok st
    else
      do newBoard <-
         alterCell (fun cell => set_flagged (negb (flagged cell)) cell)
                   (board st) row col;
      do c' <- cellAt newBoard row col;
      Ok (mkState newBoard (gameOver st) (gameWon st)
                  (if flagged c' then flags st - 1 else flags st + 1)).

(** A sequence of player actions.  A handler that throws has called no
    [set...], so the state it was called in stays. *)
Inductive action : Type :=
| Reveal (row col : Z)
| ToggleFlag (row col : Z).

Definition handle (st : GameState) (a : action) : result GameState :=
  match a with
  | Reveal row col => revealCell st row col
  | ToggleFlag row col => toggleFlag st row col
  end.

Definition dispatch (st : GameState) (a : action) : GameState :=
  match handle st a with
  | Ok st' => st'
  | Throw _ => st
  end.

Definition run (st : GameState) (acts : list action) : GameState :=
  foldl dispatch st acts.

(** ** Notions of the specification *)

(** A [size] by [size] grid. *)
Definition square (size : Z) (b : Board) : Prop :=
  length b = Z.to_nat size /\
  Forall (fun r : list Cell => length r = Z.to_nat size) b.

(** The positions of a [size] by [size] grid, row by row. *)
Definition gridPositions (size : Z) : list (Z * Z) :=
  row ← seqZ 0 size; (fun col => (row, col)) <$> seqZ 0 size.

(** There is a mine at a position: out of the grid there is none. *)
Definition mineAt (b : Board) (p : Z * Z) : bool :=
  match cellAt b p.1 p.2 with
  | Ok c => mine c
  | Throw _ => false
  end.

(** The number of cells with [mine = true]. *)
Definition countMines (b : Board) : nat :=
  length (filter (fun c => mine c = true) (concat b)).

(** Two positions are neighbours in the Moore neighbourhood: distinct and
    at most one step apart on each axis (Chebyshev distance 1). *)
Definition isNeighbour (p q : Z * Z) : Prop :=
  Z.max (Z.abs (q.1 - p.1)) (Z.abs (q.2 - p.2)) = 1.

Global Instance isNeighbour_dec (p q : Z * Z) : Decision (isNeighbour p q) :=
  Z.eq_dec _ _.

(** The cells of the grid that are neighbours of [p] and hold a mine. *)
Definition mineNeighbours (size : Z) (b : Board) (p : Z * Z) : list (Z * Z) :=
  filter (fun q => isNeighbour p q /\ mineAt b q = true) (gridPositions size).

(** A position of the [size] by [size] grid. *)
Definition inGrid (size : Z) (p : Z * Z) : Prop :=
  0 <= p.1 < size /\ 0 <= p.2 < size.

(** The draws [Math.floor(Math.random() * size)] can give for [size > 0]:
    indices of the grid. *)
Definition validRnd (size : Z) (rnd : list (Z * Z)) : Prop :=
  Forall (inGrid size) rnd.

(** The win condition in the words of the specification. *)
Definition allNonMinesRevealed (b : Board) : Prop :=
  forall row col c, cellAt b row col = Ok c ->
    revealed c = true \/ mine c = true.

(** ** Notions of the proofs *)

(** Cells as the generator leaves them outside [mine]. *)
Definition pristine (c : Cell) : Prop :=
  revealed c = false /\ flagged c = false /\ adjacentMines c = 0.

(** What holds of the board, the counter and the log at the loop head. *)
Definition placeInv (size : Z) (b : Board) (n : Z) (placed : list (Z * Z))
  : Prop :=
  square size b /\
  Forall (Forall pristine) b /\
  Z.of_nat (countMines b) = n /\
  Z.of_nat (length placed) = n /\
  NoDup placed /\
  forall p, mineAt b p = true <-> p ∈ placed.

(** The position an offset of [adjacentCells] leads to. *)
Definition shift (p d : Z * Z) : Z * Z := (p.1 + d.1, p.2 + d.2).

(** The value [adjacentCells.forEach] leaves in [adjacentMinesCount], in
    closed form: the offsets that lead to a mine inside the grid. *)
Definition offsetCount (size : Z) (b : Board) (p : Z * Z) : Z :=
  Z.of_nat (length (filter
    (fun d => inGrid size (shift p d) /\ mineAt b (shift p d) = true)
    adjacentCells)).

(** The cell the loops leave where [c0] was, once they have passed it. *)
Definition counted (size : Z) (b0 : Board) (c0 : Cell) (p : Z * Z) : Cell :=
  if mine c0 then c0 else set_adjacentMines (offsetCount size b0 p) c0.

(** [s] is [b0] with the positions in [done] already passed. *)
Definition adjInv (size : Z) (b0 : Board) (done : Z * Z -> bool) (s : Board)
  : Prop :=
  square size s /\
  countMines s = countMines b0 /\
  forall row col c0, cellAt b0 row col = Ok c0 ->
    cellAt s row col
    = Ok (if done (row, col) then counted size b0 c0 (row, col) else c0).

(** The positions the loops have passed when the outer loop is about to
    run row [i], and when the inner loop is about to run cell [(i, j)]. *)
Definition doneRow (i : Z) (p : Z * Z) : bool := p.1 <? i.
Definition doneCol (i j : Z) (p : Z * Z) : bool :=
  (p.1 <? i) || ((p.1 =? i) && (p.2 <? j)).

(** The board [revealCell] and [toggleFlag] build. *)
Definition revealedBoard (b : Board) (row col : Z) : Board :=
  alter (alter (set_revealed true) (Z.to_nat col)) (Z.to_nat row) b.
Definition toggledBoard (b : Board) (row col : Z) : Board :=
  alter (alter (fun cell => set_flagged (negb (flagged cell)) cell)
               (Z.to_nat col)) (Z.to_nat row) b.

(** The two terminal flags are not set together. *)
Definition exclusive (st : GameState) : Prop :=
  ~ (gameOver st = true /\ gameWon st = true).

(** While the game is not lost no mine is revealed, and a won game is not
    lost. *)
Definition minesHidden (st : GameState) : Prop :=
  (gameOver st = false ->
   forall row col c, cellAt (board st) row col = Ok c ->
     mine c = true -> revealed c = false) /\
  (gameWon st = true -> gameOver st = false).

(** ** A sample game *)

(** Eighteen draws on the 10 by 10 grid; the cells (1,3) and (8,3) come
    twice, and the last draw is not reached. *)
Definition demoDraws : list (Z * Z) :=
  [(0, 9); (1, 3); (1, 3); (2, 7); (3, 0); (3, 5); (4, 4); (4, 8); (5, 1);
   (6, 6); (6, 2); (7, 9); (7, 0); (8, 3); (8, 3); (9, 5); (9, 9); (0, 0)].

Definition demoGame : GameState :=
  match newGame demoDraws with
  | Some (Ok st) => st
  | _ => mkState [] false false 0
  end.

(** Four draws on a 3 by 3 grid, the first cell twice. *)
Definition smallDraws : list (Z * Z) :=
  [(0, 0); (0, 0); (2, 2); (1, 1)].

(** The sample game after the mine at (0, 9) was revealed, in a state
    with cell (0, 0) revealed, and in one with cell (0, 0) flagged. *)
Definition demoLost : GameState := dispatch demoGame (Reveal 0 9).
Definition demoRevealed : GameState := dispatch demoGame (Reveal 0 0).
Definition demoFlagged : GameState := dispatch demoGame (ToggleFlag 0 0).

(** The reveals of all the cells of the sample game that are not mines,
    row by row. *)
Definition demoWinningActs : list action :=
  (fun p : Z * Z => Reveal p.1 p.2)
    <$> filter (fun p => mineAt (board demoGame) p = false) (gridPositions 10).

(** The fresh game whose random source visits the cells row by row: its
    mines are the first 15 cells. *)
Definition sweptGame : GameState :=
  match newGame (gridPositions 10) with
  | Some (Ok st) => st
  | _ => mkState [] false false 0
  end.

(** The sample game with a flag on each of the first sixteen cells. *)
Definition demoOverflagged : GameState :=
  run demoGame
      ((fun p : Z * Z => ToggleFlag p.1 p.2) <$> take 16 (gridPositions 10)).

(** ** The rest of the component *)

(** [resetGame]: the four [set...] calls of lines 99 to 102.  The state it
    is called in is not read. *)
Definition resetGame (st : GameState) (rnd : list (Z * Z))
  : option (result GameState) :=
  match generateBoard BOARD_SIZE TOTAL_MINES rnd with
  | None => None
  | Some (Throw e) => Some (Throw e)
  | Some (Ok b) => Some (Ok (mkState b false false TOTAL_MINES))
  end.

(** The states of the component: the initial one, and those that the
    handlers and [resetGame] lead to. *)
Inductive reachable : GameState -> Prop :=
| reachable_new (rnd : list (Z * Z)) (st : GameState) :
    newGame rnd = Some (Ok st) -> reachable st
| reachable_dispatch (st : GameState) (a : action) :
    reachable st -> reachable (dispatch st a)
| reachable_reset (st : GameState) (rnd : list (Z * Z)) (st' : GameState) :
    reachable st -> resetGame st rnd = Some (Ok st') -> reachable st'.

(** What generateBoard decides of a board: where the mines are and the
    adjacency counts. *)
Definition layout (b : Board) : list (list (bool * Z)) :=
  (fun r : list Cell => (fun c => (mine c, adjacentMines c)) <$> r) <$> b.

(** The numbers of cells with [flagged = true] and with [revealed = true]. *)
Definition countFlagged (b : Board) : nat :=
  length (filter (fun c => flagged c = true) (concat b)).
Definition countRevealed (b : Board) : nat :=
  length (filter (fun c => revealed c = true) (concat b)).

Definition isReveal (a : action) : bool :=
  match a with
  | Reveal _ _ => true
  | ToggleFlag _ _ => false
  end.

(** A game that is on, with no flag on the board and the mines of
    [b0]. *)
Definition safePlay (b0 : Board) (st : GameState) : Prop :=
  reachable st /\ gameOver st = false /\
  layout (board st) = layout b0 /\
  forall row col c, cellAt (board st) row col = Ok c -> flagged c = false.

(** A mine of the board is revealed. *)
Definition mineRevealed (b : Board) : Prop :=
  exists row col c,
    cellAt b row col = Ok c /\ mine c = true /\ revealed c = true.

(** Every cell of the board holds the adjacency count generateBoard gives
    it: 0 in a mine, the count of the code elsewhere. *)
Definition adjacencyCorrect (size : Z) (b : Board) : Prop :=
  forall row col c, cellAt b row col = Ok c ->
    adjacentMines c = if mine c then 0 else offsetCount size b (row, col).

(** The positions of [l] that are not in [seen] and not earlier in [l],
    in the order in which they first come. *)
Fixpoint distinctFrom (seen : list (Z * Z)) (l : list (Z * Z))
  : list (Z * Z) :=
  match l with
  | [] => []
  | p :: l' =>
      if decide (p ∈ seen) then distinctFrom seen l'
      else p :: distinctFrom (seen ++ [p]) l'
  end.

(** ** What the component renders *)

(** What a cell shows: the mine picture, a number, the flag picture, or
    nothing ([null]). *)
Inductive Content : Type :=
| MineIcon
| Number (n : Z)
| FlagIcon
| Empty.

(** The constants [cellClass] and [cellContent] of [renderCell]. *)
Definition cellClass (cell : Cell) : string :=
  if revealed cell then "bg-white text-black border-gray-200"
  else "bg-gray-300 text-white border-gray-400".

Definition cellContent (cell : Cell) : Content :=
  if revealed cell then
    if mine cell then MineIcon
    else if 0 <? adjacentMines cell then Number (adjacentMines cell)
    else Empty
  else if flagged cell then FlagIcon
  else Empty.

(** The [onKeyDown] handler of a cell: the call it makes for a key, if
    any. *)
Definition onKeyDown (row col : Z) (key : string) : option action :=
  if (String.eqb key "Enter" || String.eqb key " ")%bool
  then Some (Reveal row col)
  else if (String.eqb key "f" || String.eqb key "F")%bool
  then Some (ToggleFlag row col)
  else None.

(** The [div] that [renderCell] returns: its attributes and its child.  A
    handler is given as the call it makes. *)
Record Element : Type := mkElement {
  key : string;
  className : string;
  onClick : action;
  onContextMenu : action;
  ariaLabel : string;
  role : string;
  tabIndex : Z;
  onKey : string -> option action;
  child : Content
}.

Definition renderCell (cell : Cell) (row col : Z) : Element :=
  mkElement
    (pretty row +:+ "-" +:+ pretty col)
    ("w-10 h-10 border flex items-center justify-center cursor-pointer "
     +:+ cellClass cell)
    (Reveal row col)
    (ToggleFlag row col)
    ("Cell at row " +:+ pretty (row + 1) +:+ ", column " +:+ pretty (col + 1))
    "button"
    0
    (onKeyDown row col)
    (cellContent cell).

(** [boardDisplay]: the children of the grid, row by row. *)
Definition boardDisplay (b : Board) : list (list Element) :=
  imap (fun rowIndex row =>
          imap (fun colIndex cell =>
                  renderCell cell (Z.of_nat rowIndex) (Z.of_nat colIndex))
               row) b.

(** The banners the component shows above the grid. *)
Definition banners (st : GameState) : list string :=
  (if gameOver st then ["Game Over! You hit a mine."] else [])
  ++ (if gameWon st then ["Congratulations! You won!"] else []).

(** Two cells that a player cannot tell apart: the same [revealed] and
    [flagged], and the same [mine] and [adjacentMines] if they are
    revealed. *)
Definition sameView (c c' : Cell) : Prop :=
  revealed c = revealed c' /\ flagged c = flagged c' /\
  (revealed c = true ->
   mine c = mine c' /\ adjacentMines c = adjacentMines c').

(** ** Tactics *)

(** Decides the integer comparisons of a boolean goal. *)
Ltac zcases :=
  repeat match goal with
    | |- context [Z.ltb ?a ?b] => destruct (Z.ltb_spec a b)
    | |- context [Z.leb ?a ?b] => destruct (Z.leb_spec a b)
    | |- context [Z.eqb ?a ?b] => destruct (Z.eqb_spec a b)
    end;
  cbn [orb andb negb]; try reflexivity; try lia; try congruence.

(** ** Array access and update *)

Lemma at_index_Some {A} (a : list A) (i : Z) (x : A) :
  at_index a i = Some x <-> 0 <= i /\ a !! Z.to_nat i = Some x.
Proof.
  unfold at_index. destruct (Z.leb_spec 0 i); split.
  - auto.
  - tauto.
  - discriminate.
  - intros [? _]. lia.
Qed.

Lemma cellAt_Ok (b : Board) (row col : Z) (c : Cell) :
  cellAt b row col = Ok c <->
  0 <= row /\ 0 <= col /\
  exists r, b !! Z.to_nat row = Some r /\ r !! Z.to_nat col = Some c.
Proof.
  unfold cellAt. split.
  - destruct (at_index b row) as [r|] eqn:Hr; [|discriminate].
    destruct (at_index r col) as [c'|] eqn:Hc; [|discriminate].
    intros [= ->]. apply at_index_Some in Hr, Hc.
    destruct Hr as [? ?], Hc as [? ?]. eauto 6.
  - intros (H1 & H2 & r & Hr & Hc).
    assert (at_index b row = Some r) as -> by (apply at_index_Some; auto).
    assert (at_index r col = Some c) as -> by (apply at_index_Some; auto).
    reflexivity.
Qed.

Lemma cellAt_Throw (b : Board) (row col : Z) (e : exn) :
  cellAt b row col = Throw e -> e = TypeError.
Proof. destruct e. reflexivity. Qed.

Lemma cellAt_square (size : Z) (b : Board) (row col : Z) :
  square size b ->
  (exists c, cellAt b row col = Ok c) <->
  0 <= row < size /\ 0 <= col < size.
Proof.
  intros [Hlen Hrows]. split.
  - intros [c (H1 & H2 & r & Hr & Hc)%cellAt_Ok].
    pose proof (lookup_lt_Some _ _ _ Hr) as Hl1.
    pose proof (lookup_lt_Some _ _ _ Hc) as Hl2.
    rewrite Forall_lookup in Hrows. rewrite (Hrows _ _ Hr) in Hl2. lia.
  - intros [Hr Hc].
    destruct (lookup_lt_is_Some_2 b (Z.to_nat row)) as [r Hrow]; [lia|].
    rewrite Forall_lookup in Hrows. pose proof (Hrows _ _ Hrow) as Hl.
    destruct (lookup_lt_is_Some_2 r (Z.to_nat col)) as [c Hcell]; [lia|].
    exists c. apply cellAt_Ok. split_and!; [lia..|]. eauto.
Qed.

Lemma alterCell_Ok (f : Cell -> Cell) (b : Board) (row col : Z) (c : Cell) :
  cellAt b row col = Ok c ->
  alterCell f b row col
  = Ok (alter (alter f (Z.to_nat col)) (Z.to_nat row) b).
Proof. unfold alterCell. intros ->. reflexivity. Qed.

Lemma alterCell_inv (f : Cell -> Cell) (b b' : Board) (row col : Z) :
  alterCell f b row col = Ok b' ->
  (exists c, cellAt b row col = Ok c) /\
  b' = alter (alter f (Z.to_nat col)) (Z.to_nat row) b.
Proof.
  unfold alterCell. destruct (cellAt b row col) as [c|] eqn:Hc; simpl.
  - intros [= <-]. eauto.
  - discriminate.
Qed.

(** Reading a board after an update of the cell at [(row, col)]. *)
Lemma cellAt_alter (f : Cell -> Cell) (b : Board) (row col : Z) (c : Cell)
    (row' col' : Z) :
  cellAt b row col = Ok c ->
  cellAt (alter (alter f (Z.to_nat col)) (Z.to_nat row) b) row' col'
  = if decide ((row', col') = (row, col)) then Ok (f c)
    else cellAt b row' col'.
Proof.
  intros (H1 & H2 & r & Hr & Hc)%cellAt_Ok.
  case_decide as Heq.
  - injection Heq as -> ->. apply cellAt_Ok. split_and!; [done..|].
    exists (alter f (Z.to_nat col) r). split.
    + rewrite list_lookup_alter_eq, Hr. reflexivity.
    + rewrite list_lookup_alter_eq, Hc. reflexivity.
  - unfold cellAt, at_index.
    destruct (Z.leb_spec 0 row'); [|reflexivity].
    destruct (decide (Z.to_nat row = Z.to_nat row')) as [Hrow|Hrow].
    + rewrite <- Hrow, list_lookup_alter_eq, Hr. simpl.
      destruct (Z.leb_spec 0 col'); [|reflexivity].
      rewrite list_lookup_alter_ne; [reflexivity|].
      intros Hcol. apply Heq. f_equal; lia.
    + rewrite list_lookup_alter_ne by done. reflexivity.
Qed.

Lemma square_alter (f : Cell -> Cell) (size : Z) (b : Board) (i j : nat) :
  square size b -> square size (alter (alter f j) i b).
Proof.
  intros [Hlen Hrows]. split.
  - rewrite length_alter. exact Hlen.
  - apply Forall_alter; [exact Hrows|].
    intros r _ Hr. rewrite length_alter. exact Hr.
Qed.

Lemma square_emptyBoard (size : Z) : square size (emptyBoard size).
Proof.
  split.
  - apply length_replicate.
  - apply Forall_replicate, length_replicate.
Qed.

(** ** The placement loop *)

Lemma filter_length_alter {A} (P : A -> Prop) `{!forall x, Decision (P x)}
    (f : A -> A) (l : list A) (i : nat) (x : A) :
  l !! i = Some x ->
  (length (filter P (alter f i l)) + (if decide (P x) then 1 else 0)
   = length (filter P l) + (if decide (P (f x)) then 1 else 0))%nat.
Proof.
  revert i. induction l as [|y l IH]; intros [|i] Hi; simplify_eq/=.
  - rewrite !filter_cons. repeat case_decide; cbn [length]; lia.
  - specialize (IH i Hi). rewrite !filter_cons.
    destruct (decide (P y)); cbn [length]; lia.
Qed.

Lemma filter_concat_length_alter {A} (P : A -> Prop)
    `{!forall x, Decision (P x)} (g : list A -> list A) (b : list (list A))
    (i : nat) (r : list A) :
  b !! i = Some r ->
  (length (filter P (concat (alter g i b))) + length (filter P r)
   = length (filter P (concat b)) + length (filter P (g r)))%nat.
Proof.
  revert i. induction b as [|y b IH]; intros [|i] Hi; simplify_eq/=.
  - rewrite !filter_app, !length_app. lia.
  - specialize (IH i Hi). rewrite !filter_app, !length_app. lia.
Qed.

(** Changing one cell changes the number of mines by what that cell
    contributes. *)
Lemma countMines_alter (f : Cell -> Cell) (b : Board) (row col : Z) (c : Cell) :
  cellAt b row col = Ok c ->
  (countMines (alter (alter f (Z.to_nat col)) (Z.to_nat row) b)
   + (if mine c then 1 else 0)
   = countMines b + (if mine (f c) then 1 else 0))%nat.
Proof.
  intros (_ & _ & r & Hr & Hc)%cellAt_Ok. unfold countMines.
  pose proof (filter_concat_length_alter (fun c => mine c = true)
                (alter f (Z.to_nat col)) b _ r Hr) as H1.
  pose proof (filter_length_alter (fun c => mine c = true) f r _ c Hc) as H2.
  destruct (mine c) eqn:?, (mine (f c)) eqn:?;
    repeat case_decide; try congruence; lia.
Qed.

Lemma countMines_alter_same (f : Cell -> Cell) (b : Board) (row col : Z)
    (c : Cell) :
  cellAt b row col = Ok c -> mine (f c) = mine c ->
  countMines (alter (alter f (Z.to_nat col)) (Z.to_nat row) b) = countMines b.
Proof.
  intros Hc Hm. pose proof (countMines_alter f b row col c Hc) as H.
  rewrite Hm in H. lia.
Qed.

Lemma mineAt_alter (f : Cell -> Cell) (b : Board) (row col : Z) (c : Cell)
    (p : Z * Z) :
  cellAt b row col = Ok c ->
  mineAt (alter (alter f (Z.to_nat col)) (Z.to_nat row) b) p
  = if decide (p = (row, col)) then mine (f c) else mineAt b p.
Proof.
  intros Hc. unfold mineAt. destruct p as [r k]; simpl.
  rewrite (cellAt_alter f b row col c r k Hc).
  case_decide; reflexivity.
Qed.

Section Placement.
Variables size mines : Z.

Lemma placeInv_init : placeInv size (emptyBoard size) 0 [].
Proof.
  unfold placeInv, emptyBoard. split_and!.
  - apply square_emptyBoard.
  - apply Forall_replicate, Forall_replicate. by repeat split.
  - unfold countMines.
    assert (forall l : list Cell,
               Forall (fun c => mine c = false) l ->
               filter (fun c => mine c = true) l = []) as Hnone.
    { induction 1 as [|x l Hx _ IH]; [done|].
      rewrite filter_cons_False by congruence. exact IH. }
    rewrite Hnone; [done|].
    apply Forall_concat, Forall_replicate, Forall_replicate. done.
  - done.
  - constructor.
  - intros [r k]. unfold mineAt. simpl. split; [|by intros ?%elem_of_nil].
    destruct (cellAt _ r k) as [c|] eqn:Hc; [|done].
    apply cellAt_Ok in Hc as (_ & _ & row & Hrow & Hcell).
    apply lookup_replicate in Hrow as [-> _].
    apply lookup_replicate in Hcell as [-> _]. done.
Qed.

Lemma placeInv_step b n placed row col c :
  placeInv size b n placed ->
  cellAt b row col = Ok c ->
  mine c = false ->
  placeInv size
    (alter (alter (set_mine true) (Z.to_nat col)) (Z.to_nat row) b)
    (n + 1) (placed ++ [(row, col)]).
Proof.
  intros (Hsq & Hpr & Hcnt & Hlen & Hnd & Hmem) Hc Hm.
  assert ((row, col) ∉ placed) as Hfresh.
  { rewrite <- Hmem. unfold mineAt. simpl. rewrite Hc, Hm. done. }
  split_and!.
  - by apply square_alter.
  - apply Forall_alter; [exact Hpr|]. intros r _ Hr.
    apply Forall_alter; [exact Hr|]. intros x _ Hx. exact Hx.
  - pose proof (countMines_alter (set_mine true) b row col c Hc) as H.
    rewrite Hm in H. simpl in H. lia.
  - rewrite length_app. simpl. lia.
  - apply NoDup_app. split_and!; [done| |apply NoDup_singleton].
    intros p Hp ->%list_elem_of_singleton. done.
  - intros p. rewrite (mineAt_alter _ _ _ _ _ p Hc), elem_of_app,
      list_elem_of_singleton, <- Hmem.
    case_decide; simpl; tauto.
Qed.

(** Partial correctness of the loop: when it exits, the counter is
    [mines] (or was already past it), and the invariant holds. *)
Lemma placeMines_inv rnd b n placed b' placed' :
  placeInv size b n placed ->
  placeMines size mines rnd b n placed = Some (Ok (b', placed')) ->
  placeInv size b' (Z.max n mines) placed'.
Proof.
  revert b n placed.
  induction rnd as [|[row col] rnd IH]; intros b n placed Hinv; simpl.
  - destruct (Z.ltb_spec n mines); [discriminate|].
    intros [= <- <-]. by rewrite Z.max_l by lia.
  - destruct (Z.ltb_spec n mines) as [Hlt|Hge].
    + destruct (cellAt b _ _) as [c|] eqn:Hc; [|discriminate].
      destruct (mine c) eqn:Hm; simpl.
      * apply IH. exact Hinv.
      * rewrite (alterCell_Ok _ _ _ _ _ Hc). intros Hrun.
        apply IH in Hrun; [|by eapply placeInv_step].
        by replace (Z.max n mines) with (Z.max (n + 1) mines) by lia.
    + intros [= <- <-]. by rewrite Z.max_l by lia.
Qed.

(** With draws inside the grid the loop never throws. *)
Lemma placeMines_no_throw rnd b n placed e :
  validRnd size rnd -> square size b ->
  placeMines size mines rnd b n placed <> Some (Throw e).
Proof.
  intros Hrnd. revert b n placed.
  induction Hrnd as [|[row col] rnd Hin _ IH];
    intros b n placed Hsq; simpl in *.
  - destruct (n <? mines); discriminate.
  - destruct (n <? mines); [|discriminate].
    destruct (proj2 (cellAt_square size b row col Hsq)) as [c Hc].
    { exact Hin. }
    rewrite Hc. destruct (mine c); simpl.
    + by apply IH.
    + rewrite (alterCell_Ok _ _ _ _ _ Hc). by apply IH, square_alter.
Qed.
End Placement.

(** ** Termination of the placement loop *)

Lemma filter_ne_id {A} `{EqDecision A} (x : A) (l : list A) :
  x ∉ l -> filter (fun y => y <> x) l = l.
Proof.
  induction l as [|y l IH]; [done|].
  rewrite not_elem_of_cons. intros [Hne Hin].
  rewrite filter_cons_True by congruence. by rewrite IH.
Qed.

Lemma NoDup_filter_ne_length {A} `{EqDecision A} (x : A) (l : list A) :
  NoDup l -> (length l <= S (length (filter (fun y => y <> x) l)))%nat.
Proof.
  induction 1 as [|y l Hy Hnd IH]; [simpl; lia|].
  destruct (decide (y = x)) as [->|Hne].
  - rewrite filter_cons_False by tauto. rewrite filter_ne_id by done.
    simpl. lia.
  - rewrite filter_cons_True by done. simpl. lia.
Qed.

Section PlacementTerminates.
Variables size mines : Z.

(** The loop exits as soon as the source has drawn enough distinct cells
    that are not mines yet: [ds] is a duplicate-free selection of such
    cells. *)
Lemma placeMines_returns rnd b n placed (ds : list (Z * Z)) :
  validRnd size rnd -> square size b ->
  NoDup ds ->
  (forall p, p ∈ ds -> p ∈ rnd /\ mineAt b p = false) ->
  mines - n <= Z.of_nat (length ds) ->
  exists b' placed',
    placeMines size mines rnd b n placed = Some (Ok (b', placed')).
Proof.
  intros Hrnd. revert b n placed ds.
  induction Hrnd as [|[row col] rnd Hin0 _ IH];
    intros b n placed ds Hsq Hnd Hds Hlen; simpl in *.
  - destruct (Z.ltb_spec n mines) as [Hlt|Hge]; [|eauto].
    destruct ds as [|p ds]; [simpl in Hlen; lia|].
    destruct (Hds p) as [[]%elem_of_nil _]. left.
  - destruct (Z.ltb_spec n mines) as [Hlt|Hge]; [|eauto].
    destruct (proj2 (cellAt_square size b row col Hsq)) as [c Hc].
    { exact Hin0. }
    rewrite Hc. destruct (mine c) eqn:Hm; simpl.
    + apply (IH b n placed ds); [done..| |done].
      intros p Hp. destruct (Hds p Hp) as [Hin Hfree]. split; [|done].
      apply elem_of_cons in Hin as [->|Hin]; [|done].
      unfold mineAt in Hfree. simpl in Hfree. rewrite Hc in Hfree.
      congruence.
    + rewrite (alterCell_Ok _ _ _ _ _ Hc).
      apply (IH _ (n + 1) _ (filter (fun p => p <> (row, col)) ds)).
      * by apply square_alter.
      * by apply NoDup_filter.
      * intros p [Hne Hp]%list_elem_of_filter.
        destruct (Hds p Hp) as [Hin Hfree]. split.
        -- apply elem_of_cons in Hin as [->|Hin]; done.
        -- rewrite (mineAt_alter _ _ _ _ _ p Hc).
           case_decide; [done|exact Hfree].
      * pose proof (NoDup_filter_ne_length (row, col) ds Hnd). lia.
Qed.
End PlacementTerminates.

(** ** Loops over [0 .. n-1] *)

Lemma forEach_seqZ_from {St} (body : St -> Z -> result St) (I : Z -> St -> Prop)
    (n : Z) (k : nat) (m : Z) (s : St) :
  0 <= m -> m + Z.of_nat k <= n ->
  (forall i s, 0 <= i < n -> I i s ->
     exists s', body s i = Ok s' /\ I (i + 1) s') ->
  I m s ->
  exists s', forEach body (seqZ m (Z.of_nat k)) s = Ok s'
             /\ I (m + Z.of_nat k) s'.
Proof.
  intros Hm Hk Hbody. revert m s Hm Hk.
  induction k as [|k IH]; intros m s Hm Hk HI.
  - exists s. simpl. by rewrite Z.add_0_r.
  - rewrite seqZ_cons by lia.
    destruct (Hbody m s) as (s1 & Hs1 & HI1); [lia|done|].
    destruct (IH (m + 1) s1) as (s2 & Hs2 & HI2); [lia|lia|done|].
    exists s2. simpl. rewrite Hs1. simpl.
    replace (Z.succ m) with (m + 1) by lia.
    replace (Z.pred (Z.of_nat (S k))) with (Z.of_nat k) by lia.
    split; [exact Hs2|].
    by replace (m + Z.of_nat (S k)) with (m + 1 + Z.of_nat k) by lia.
Qed.

(** The rule for [for (let i = 0; i < n; i++)]: an invariant that every
    iteration re-establishes holds at the exit, and no iteration throws. *)
Lemma forEach_seqZ {St} (body : St -> Z -> result St) (I : Z -> St -> Prop)
    (n : Z) (s : St) :
  (forall i s, 0 <= i < n -> I i s ->
     exists s', body s i = Ok s' /\ I (i + 1) s') ->
  I 0 s ->
  exists s', forEach body (seqZ 0 n) s = Ok s' /\ I (Z.max 0 n) s'.
Proof.
  intros Hbody HI. destruct (Z.le_gt_cases n 0) as [Hn|Hn].
  - rewrite seqZ_nil by done. exists s. simpl.
    by rewrite Z.max_l by lia.
  - destruct (forEach_seqZ_from body I n (Z.to_nat n) 0 s)
      as (s' & Hs' & HI'); [lia|lia|done|done|].
    rewrite Z2Nat.id in Hs', HI' by lia.
    exists s'. split; [done|]. by rewrite Z.max_r by lia.
Qed.

(** ** Counting the adjacent mines *)

(** Distinct offsets lead to distinct positions. *)
Global Instance shift_inj (p : Z * Z) : Inj (=) (=) (shift p).
Proof. intros [a b] [c d] [= ? ?]. f_equal; lia. Qed.

Lemma adjacentStep_forEach (size : Z) (b : Board) (row col : Z)
    (l : list (Z * Z)) (n : Z) :
  square size b ->
  forEach (adjacentStep size b row col) l n
  = Ok (n + Z.of_nat (length (filter
      (fun d => inGrid size (shift (row, col) d)
                /\ mineAt b (shift (row, col) d) = true) l))).
Proof.
  intros Hsq. revert n. induction l as [|[dx dy] l IH]; intros n.
  - simpl. f_equal. lia.
  - cbn [forEach]. unfold adjacentStep at 1.
    destruct ((0 <=? row + dx) && (row + dx <? size)
              && (0 <=? col + dy) && (col + dy <? size)) eqn:Hb.
    + assert (inGrid size (shift (row, col) (dx, dy))) as Hin.
      { unfold inGrid, shift; simpl.
        rewrite !andb_true_iff in Hb. lia. }
      destruct (proj2 (cellAt_square size b (row + dx) (col + dy) Hsq))
        as [c Hc]; [exact Hin|].
      assert (mineAt b (shift (row, col) (dx, dy)) = mine c) as Hm.
      { unfold mineAt, shift; simpl. by rewrite Hc. }
      rewrite Hc. cbn [bind]. rewrite IH. f_equal.
      rewrite filter_cons.
      destruct (mine c); case_decide as Hd; cbn [length]; try lia; exfalso.
      * tauto.
      * destruct Hd as [_ Hd]. congruence.
    + assert (~ inGrid size (shift (row, col) (dx, dy))) as Hout.
      { unfold inGrid, shift; simpl. intros ?.
        rewrite !andb_false_iff in Hb. lia. }
      cbn [bind]. rewrite IH. f_equal.
      rewrite filter_cons_False by tauto. done.
Qed.

Lemma elem_of_gridPositions (size : Z) (p : Z * Z) :
  p ∈ gridPositions size <-> inGrid size p.
Proof.
  unfold gridPositions, inGrid. rewrite list_elem_of_bind. split.
  - intros (row & (col & -> & Hcol)%list_elem_of_fmap & Hrow).
    apply elem_of_seqZ in Hrow, Hcol. simpl. lia.
  - intros [Hrow Hcol]. exists p.1. split.
    + apply list_elem_of_fmap. exists p.2. split; [by destruct p|].
      apply elem_of_seqZ. lia.
    + apply elem_of_seqZ. lia.
Qed.

Lemma NoDup_gridPositions (size : Z) : NoDup (gridPositions size).
Proof.
  unfold gridPositions. apply NoDup_bind.
  - intros r1 r2 p _ _ (c1 & -> & _)%list_elem_of_fmap
      (c2 & [= -> _] & _)%list_elem_of_fmap. done.
  - intros r _. apply NoDup_fmap_2; [|apply NoDup_seqZ].
    intros c1 c2 [= ->]. done.
  - apply NoDup_seqZ.
Qed.

Lemma length_gridPositions (size : Z) :
  0 <= size -> Z.of_nat (length (gridPositions size)) = size * size.
Proof.
  intros Hsize. unfold gridPositions.
  assert (forall l : list Z,
    length (l ≫= (fun row => (fun col => (row, col)) <$> seqZ 0 size))
    = (length l * Z.to_nat size)%nat) as Hlen.
  { induction l as [|x l IH]; [done|]. csimpl.
    rewrite length_app, length_fmap, length_seqZ, IH. lia. }
  rewrite Hlen, length_seqZ. lia.
Qed.

Lemma adjacentCells_spec (d : Z * Z) :
  d ∈ adjacentCells <-> Z.max (Z.abs d.1) (Z.abs d.2) = 1.
Proof.
  unfold adjacentCells. rewrite !elem_of_cons, elem_of_nil.
  destruct d as [dx dy]. simpl. split.
  - intros H. repeat destruct H as [H|H]; by simplify_eq.
  - intros H.
    assert (dx = -1 \/ dx = 0 \/ dx = 1) as Hx by lia.
    assert (dy = -1 \/ dy = 0 \/ dy = 1) as Hy by lia.
    destruct Hx as [-> | [-> | ->]], Hy as [-> | [-> | ->]];
      try (simpl in H; lia); tauto.
Qed.

Lemma NoDup_adjacentCells : NoDup adjacentCells.
Proof.
  unfold adjacentCells.
  repeat (apply NoDup_cons; split;
          [rewrite ?elem_of_cons, elem_of_nil;
           intros H; repeat destruct H as [H|H]; by simplify_eq|]).
  constructor.
Qed.

Lemma filter_fmap_length {A B} (f : A -> B) (P : B -> Prop)
    `{!forall y, Decision (P y)} (l : list A) :
  length (filter (fun x => P (f x)) l) = length (filter P (f <$> l)).
Proof.
  induction l as [|x l IH]; [done|]. csimpl.
  rewrite !filter_cons. destruct (decide (P (f x))); simpl; by rewrite IH.
Qed.

(** The offsets of the code reach exactly the Moore neighbours that lie in
    the grid, each once. *)
Lemma offsetCount_mineNeighbours (size : Z) (b : Board) (p : Z * Z) :
  offsetCount size b p = Z.of_nat (length (mineNeighbours size b p)).
Proof.
  unfold offsetCount, mineNeighbours. f_equal.
  etrans; [exact (filter_fmap_length (shift p)
             (fun q => inGrid size q /\ mineAt b q = true) adjacentCells)|].
  apply Permutation_length, NoDup_Permutation.
  - apply NoDup_filter, NoDup_fmap_2; [apply _|apply NoDup_adjacentCells].
  - apply NoDup_filter, NoDup_gridPositions.
  - intros q. rewrite !list_elem_of_filter, list_elem_of_fmap,
      elem_of_gridPositions. unfold isNeighbour. split.
    + intros [[Hin Hm] (d & -> & Hd%adjacentCells_spec)].
      split_and!; [|done..]. unfold shift; simpl.
      by replace (p.1 + d.1 - p.1) with d.1 by lia;
        replace (p.2 + d.2 - p.2) with d.2 by lia.
    + intros [[Hn Hm] Hin]. split_and!; [done..|].
      exists (q.1 - p.1, q.2 - p.2). split.
      * unfold shift; simpl. destruct q; simpl; f_equal; lia.
      * apply adjacentCells_spec. exact Hn.
Qed.

(** ** The adjacency loops *)

Section Adjacency.
Variable size : Z.
Variable b0 : Board.
Hypothesis Hsq0 : square size b0.

Lemma adjInv_ext (d1 d2 : Z * Z -> bool) (s : Board) :
  (forall p, inGrid size p -> d1 p = d2 p) ->
  adjInv size b0 d1 s -> adjInv size b0 d2 s.
Proof.
  intros Hd (Hsq & Hcnt & Hcells). split_and!; [done..|].
  intros row col c0 Hc0. rewrite <- Hd; [by apply Hcells|].
  apply (cellAt_square size b0 row col Hsq0). eauto.
Qed.

Lemma adjInv_mineAt (d : Z * Z -> bool) (s : Board) (p : Z * Z) :
  adjInv size b0 d s -> mineAt s p = mineAt b0 p.
Proof.
  intros (Hsq & _ & Hcells). unfold mineAt.
  destruct (cellAt b0 p.1 p.2) as [c0|] eqn:Hc0.
  - rewrite (Hcells _ _ _ Hc0). unfold counted.
    destruct (d _), (mine c0) eqn:Hm; simpl; congruence.
  - destruct (cellAt s p.1 p.2) as [c|] eqn:Hc; [|done].
    assert (exists c0, cellAt b0 p.1 p.2 = Ok c0) as [c0 Hc0'].
    { apply (cellAt_square size b0 _ _ Hsq0).
      apply (cellAt_square size s _ _ Hsq). eauto. }
    congruence.
Qed.

Lemma adjInv_offsetCount (d : Z * Z -> bool) (s : Board) (p : Z * Z) :
  adjInv size b0 d s -> offsetCount size s p = offsetCount size b0 p.
Proof.
  intros Hinv. unfold offsetCount. do 2 f_equal.
  apply list_filter_iff. intros q.
  by rewrite (adjInv_mineAt d s (shift p q) Hinv).
Qed.

(** One iteration of the inner loop. *)
Lemma colStep_inv (d : Z * Z -> bool) (s : Board) (i j : Z) :
  adjInv size b0 d s -> inGrid size (i, j) -> d (i, j) = false ->
  exists s', colStep size i s j = Ok s' /\
             adjInv size b0 (fun p => d p || bool_decide (p = (i, j))) s'.
Proof.
  intros Hinv Hin Hd. pose proof Hinv as (Hsq & Hcnt & Hcells).
  destruct (proj2 (cellAt_square size b0 i j Hsq0) Hin) as [c0 Hc0].
  pose proof (Hcells _ _ _ Hc0) as Hc. rewrite Hd in Hc.
  unfold colStep. rewrite Hc. cbn [bind].
  destruct (mine c0) eqn:Hm.
  - exists s. split; [done|]. split_and!; [done..|].
    intros row col c1 Hc1. rewrite (Hcells _ _ _ Hc1).
    case_bool_decide as Heq; [|by rewrite orb_false_r].
    injection Heq as -> ->. rewrite Hd. simpl.
    assert (c1 = c0) as -> by congruence.
    unfold counted. by rewrite Hm.
  - rewrite (adjacentStep_forEach size s i j adjacentCells 0 Hsq).
    cbn [bind]. rewrite (alterCell_Ok _ _ _ _ _ Hc).
    eexists. split; [done|]. split_and!.
    + by apply square_alter.
    + rewrite <- Hcnt. by apply (countMines_alter_same _ s i j c0).
    + intros row col c1 Hc1.
      rewrite (cellAt_alter _ _ _ _ _ row col Hc).
      case_decide as Heq; case_bool_decide; try done.
      * injection Heq as -> ->. rewrite Hd. cbn [orb].
        assert (c1 = c0) as -> by congruence.
        unfold counted. rewrite Hm. do 2 f_equal.
        rewrite <- (adjInv_offsetCount d s (i, j) Hinv).
        apply Z.add_0_l.
      * rewrite orb_false_r. by apply Hcells.
Qed.

Lemma rowStep_inv (s : Board) (i : Z) :
  adjInv size b0 (doneRow i) s -> 0 <= i < size ->
  exists s', rowStep size s i = Ok s' /\ adjInv size b0 (doneRow (i + 1)) s'.
Proof.
  intros Hinv Hi. unfold rowStep.
  destruct (forEach_seqZ (colStep size i)
              (fun j s => adjInv size b0 (doneCol i j) s) size s)
    as (s' & Hs' & Hinv').
  - intros j s1 Hj Hs1.
    destruct (colStep_inv (doneCol i j) s1 i j Hs1) as (s2 & Hs2 & Hinv2).
    { split; simpl; lia. }
    { unfold doneCol; simpl. zcases. }
    exists s2. split; [done|]. revert Hinv2. apply adjInv_ext.
    intros [r k] _. unfold doneCol; simpl.
    case_bool_decide as Heq; [injection Heq as -> ->|]; zcases.
    all: exfalso; apply Heq; f_equal; lia.
  - revert Hinv. apply adjInv_ext. intros [r k] [_ Hk].
    unfold doneRow, doneCol; simpl in *. zcases.
  - exists s'. split; [done|]. revert Hinv'. apply adjInv_ext.
    intros [r k] [_ Hk]. unfold doneRow, doneCol; simpl in *. zcases.
Qed.

(** On a square board the two loops never throw, and they leave every
    cell [counted]. *)
Lemma calculateAdjacent_spec :
  exists b,
    calculateAdjacent size b0 = Ok b /\ adjInv size b0 (fun _ => true) b.
Proof.
  unfold calculateAdjacent.
  destruct (forEach_seqZ (rowStep size)
              (fun i s => adjInv size b0 (doneRow i) s) size b0)
    as (b & Hb & Hinv).
  - intros i s Hi Hs. by apply rowStep_inv.
  - split_and!; [done..|]. intros row col c0 Hc0.
    apply cellAt_Ok in Hc0 as Hrow. destruct Hrow as [Hrow _].
    unfold doneRow; simpl. rewrite Hc0.
    by destruct (Z.ltb_spec row 0); [lia|].
  - exists b. split; [done|]. revert Hinv. apply adjInv_ext.
    intros [r k] [Hr _]. unfold doneRow; simpl in *. zcases.
Qed.
End Adjacency.

(** ** What generateBoard returns *)

Lemma cellAt_lookup (b : Board) (i j : nat) (r : list Cell) (c : Cell) :
  b !! i = Some r -> r !! j = Some c ->
  cellAt b (Z.of_nat i) (Z.of_nat j) = Ok c.
Proof.
  intros Hr Hc. apply cellAt_Ok. split_and!; [lia..|].
  exists r. by rewrite !Nat2Z.id.
Qed.

(** A property of all the cells, by position or by list. *)
Lemma Forall_cells (P : Cell -> Prop) (b : Board) :
  Forall (Forall P) b <->
  forall row col c, cellAt b row col = Ok c -> P c.
Proof.
  split.
  - intros Hall row col c (_ & _ & r & Hr & Hc)%cellAt_Ok.
    rewrite Forall_lookup in Hall. specialize (Hall _ _ Hr).
    rewrite Forall_lookup in Hall. by apply (Hall _ _ Hc).
  - intros Hall. apply Forall_lookup. intros i r Hr.
    apply Forall_lookup. intros j c Hc.
    by apply (Hall _ _ _ (cellAt_lookup b i j r c Hr Hc)).
Qed.

Lemma offsetCount_bounds (size : Z) (b : Board) (p : Z * Z) :
  0 <= offsetCount size b p <= 8.
Proof.
  unfold offsetCount.
  pose proof (length_filter
    (fun d => inGrid size (shift p d) /\ mineAt b (shift p d) = true)
    adjacentCells) as H.
  change (length adjacentCells) with 8%nat in H. lia.
Qed.

Section Generated.
Variables size mines : Z.
Variable rnd : list (Z * Z).
Variable b : Board.
Hypothesis Hgen : generateBoard size mines rnd = Some (Ok b).

(** The two phases behind a returned board: the board [b0] and the log
    the placement loop ended with, and the adjacency loops run on [b0]. *)
Lemma generateBoard_phases :
  exists b0 placed,
    placeMines size mines rnd (emptyBoard size) 0 [] = Some (Ok (b0, placed))
    /\ placeInv size b0 (Z.max 0 mines) placed
    /\ adjInv size b0 (fun _ => true) b.
Proof.
  unfold generateBoard in Hgen.
  destruct (placeMines size mines rnd (emptyBoard size) 0 [])
    as [[[b0 placed]|e]|] eqn:Hplace; [|done..].
  exists b0, placed. split; [done|].
  pose proof (placeMines_inv size mines rnd _ _ _ _ _
                (placeInv_init size) Hplace) as Hinv.
  split; [done|].
  destruct Hinv as (Hsq & _).
  destruct (calculateAdjacent_spec size b0 Hsq) as (b' & Hb' & Hadj).
  congruence.
Qed.

Lemma generateBoard_square : square size b.
Proof. destruct generateBoard_phases as (b0 & placed & _ & _ & H). apply H. Qed.

Lemma generateBoard_countMines : Z.of_nat (countMines b) = Z.max 0 mines.
Proof.
  destruct generateBoard_phases
    as (b0 & placed & _ & (_ & _ & Hcnt & _) & (_ & Heq & _)).
  by rewrite Heq.
Qed.

(** The mines of the returned board are the logged placements, and no
    position was logged twice. *)
Lemma generateBoard_placed :
  exists b0 placed,
    placeMines size mines rnd (emptyBoard size) 0 [] = Some (Ok (b0, placed))
    /\ NoDup placed
    /\ Z.of_nat (length placed) = Z.max 0 mines
    /\ forall p, mineAt b p = true <-> p ∈ placed.
Proof.
  destruct generateBoard_phases
    as (b0 & placed & Hplace & (Hsq & _ & _ & Hlen & Hnd & Hmem) & Hadj).
  exists b0, placed. split_and!; [done..|].
  intros p. by rewrite (adjInv_mineAt size b0 Hsq _ b p Hadj).
Qed.

(** Every cell of the returned board. *)
Lemma generateBoard_cell row col c :
  cellAt b row col = Ok c ->
  revealed c = false /\ flagged c = false /\
  adjacentMines c
  = if mine c then 0 else offsetCount size b (row, col).
Proof.
  destruct generateBoard_phases
    as (b0 & placed & _ & (Hsq & Hpr & _) & Hadj).
  intros Hc. pose proof Hadj as (Hsqb & _ & Hcells).
  assert (exists c0, cellAt b0 row col = Ok c0) as [c0 Hc0].
  { apply (cellAt_square size b0 _ _ Hsq).
    apply (cellAt_square size b _ _ Hsqb). eauto. }
  pose proof (proj1 (Forall_cells pristine b0) Hpr _ _ _ Hc0)
    as (Hrev & Hflag & Hadj0).
  rewrite (Hcells _ _ _ Hc0) in Hc. injection Hc as <-.
  rewrite (adjInv_offsetCount size b0 Hsq _ b (row, col) Hadj).
  unfold counted. destruct (mine c0) eqn:Hm; simpl; rewrite ?Hm; done.
Qed.
End Generated.

(** With draws inside the grid, generateBoard does not throw. *)
Lemma generateBoard_no_throw (size mines : Z) (rnd : list (Z * Z)) (e : exn) :
  validRnd size rnd -> generateBoard size mines rnd <> Some (Throw e).
Proof.
  intros Hrnd. unfold generateBoard.
  destruct (placeMines size mines rnd (emptyBoard size) 0 [])
    as [[[b0 placed]|e0]|] eqn:Hplace; [| |done].
  - pose proof (placeMines_inv size mines rnd _ _ _ _ _
                  (placeInv_init size) Hplace) as (Hsq & _).
    destruct (calculateAdjacent_spec size b0 Hsq) as (b' & -> & _). done.
  - by apply placeMines_no_throw in Hplace;
      [|done|apply square_emptyBoard].
Qed.

(** generateBoard returns as soon as the source has drawn [mines] distinct
    cells. *)
Lemma generateBoard_returns (size mines : Z) (rnd : list (Z * Z))
    (ds : list (Z * Z)) :
  validRnd size rnd ->
  NoDup ds -> (forall p, p ∈ ds -> p ∈ rnd) ->
  mines <= Z.of_nat (length ds) ->
  exists b, generateBoard size mines rnd = Some (Ok b).
Proof.
  intros Hrnd Hnd Hds Hlen.
  destruct (placeMines_returns size mines rnd (emptyBoard size) 0 [] ds)
    as (b0 & placed & Hplace); [done|apply square_emptyBoard|done| |lia|].
  { intros p Hp. split; [by apply Hds|].
    destruct (placeInv_init size) as (_ & _ & _ & _ & _ & Hmem).
    destruct (mineAt (emptyBoard size) p) eqn:Hm; [|done].
    apply Hmem in Hm. by apply elem_of_nil in Hm. }
  pose proof (placeMines_inv size mines rnd _ _ _ _ _
                (placeInv_init size) Hplace) as (Hsq & _).
  destruct (calculateAdjacent_spec size b0 Hsq) as (b & Hb & _).
  exists b. unfold generateBoard. by rewrite Hplace, Hb.
Qed.

Lemma mineAt_inGrid (size : Z) (b : Board) (p : Z * Z) :
  square size b -> mineAt b p = true -> inGrid size p.
Proof.
  intros Hsq Hm. unfold mineAt in Hm.
  destruct (cellAt b p.1 p.2) as [c|] eqn:Hc; [|done].
  apply (cellAt_square size b _ _ Hsq). eauto.
Qed.

(** A returned board never holds more mines than the grid has cells; when
    it holds as many, every cell is a mine. *)
Lemma generateBoard_mines_le (size mines : Z) (rnd : list (Z * Z)) (b : Board) :
  0 <= size -> generateBoard size mines rnd = Some (Ok b) ->
  Z.max 0 mines <= size * size /\
  (Z.max 0 mines = size * size ->
   forall row col c, cellAt b row col = Ok c -> mine c = true).
Proof.
  intros Hsize Hgen.
  pose proof (generateBoard_square _ _ _ _ Hgen) as Hsq.
  destruct (generateBoard_placed _ _ _ _ Hgen)
    as (b0 & placed & _ & Hnd & Hlen & Hmem).
  assert (placed ⊆+ gridPositions size) as Hsub.
  { apply NoDup_submseteq; [done|]. intros p Hp.
    apply elem_of_gridPositions, (mineAt_inGrid size b p Hsq), Hmem, Hp. }
  pose proof (submseteq_length _ _ Hsub) as Hle.
  pose proof (length_gridPositions size Hsize) as Hgrid.
  split; [lia|]. intros Hfull row col c Hc.
  assert (placed ≡ₚ gridPositions size) as Hperm.
  { apply submseteq_length_Permutation; [done|lia]. }
  assert ((row, col) ∈ placed) as Hin.
  { rewrite Hperm. apply elem_of_gridPositions.
    apply (cellAt_square size b _ _ Hsq). eauto. }
  apply Hmem in Hin. unfold mineAt in Hin. simpl in Hin.
  by rewrite Hc in Hin.
Qed.

(** ** A random source that visits every cell *)

Lemma validRnd_gridPositions (size : Z) : validRnd size (gridPositions size).
Proof.
  apply Forall_forall. intros p Hp. by apply elem_of_gridPositions.
Qed.

(** For every admissible configuration some random source makes
    generateBoard return. *)
Lemma generateBoard_gridPositions (size mines : Z) :
  0 < size -> mines <= size * size ->
  exists b, generateBoard size mines (gridPositions size) = Some (Ok b).
Proof.
  intros Hsize Hmines.
  apply (generateBoard_returns size mines _ (gridPositions size)).
  - apply validRnd_gridPositions.
  - apply NoDup_gridPositions.
  - done.
  - rewrite length_gridPositions; lia.
Qed.

(** ** The handlers *)

Lemma forallb_Forall {A} (f : A -> bool) (l : list A) :
  forallb f l = true <-> Forall (fun x => f x = true) l.
Proof.
  induction l as [|x l IH]; simpl.
  - split; [constructor|done].
  - rewrite andb_true_iff, Forall_cons, IH. done.
Qed.

(** The scan of the code is the win condition of the specification. *)
Lemma allSafeRevealed_spec (b : Board) :
  allSafeRevealed b = true <-> allNonMinesRevealed b.
Proof.
  unfold allSafeRevealed, allNonMinesRevealed.
  rewrite forallb_Forall. split.
  - intros H row col c Hc. apply orb_true_iff. revert row col c Hc.
    apply (Forall_cells (fun c => revealed c || mine c = true)).
    eapply Forall_impl; [exact H|]. intros r Hr. by apply forallb_Forall.
  - intros H.
    assert (Forall (Forall (fun c => revealed c || mine c = true)) b) as H'.
    { apply Forall_cells. intros row col c Hc.
      apply orb_true_iff. by apply (H row col). }
    eapply Forall_impl; [exact H'|]. intros r Hr. by apply forallb_Forall.
Qed.

Lemma cellAt_alter_eq (f : Cell -> Cell) (b : Board) (row col : Z) (c : Cell) :
  cellAt b row col = Ok c ->
  cellAt (alter (alter f (Z.to_nat col)) (Z.to_nat row) b) row col = Ok (f c).
Proof.
  intros Hc. rewrite (cellAt_alter f b row col c row col Hc).
  by rewrite decide_True.
Qed.

Lemma cellAt_alter_ne (f : Cell -> Cell) (b : Board) (row col : Z) (c : Cell)
    (row' col' : Z) :
  cellAt b row col = Ok c -> (row', col') <> (row, col) ->
  cellAt (alter (alter f (Z.to_nat col)) (Z.to_nat row) b) row' col'
  = cellAt b row' col'.
Proof.
  intros Hc Hne. rewrite (cellAt_alter f b row col c row' col' Hc).
  by rewrite decide_False.
Qed.

(** [revealCell] past its two guards. *)
Lemma revealCell_playing (st : GameState) (row col : Z) (c : Cell) :
  gameOver st = false -> gameWon st = false ->
  cellAt (board st) row col = Ok c ->
  revealed c = false -> flagged c = false ->
  revealCell st row col
  = Ok (let newBoard := revealedBoard (board st) row col in
        if mine c then mkState newBoard true false (flags st)
        else if allSafeRevealed newBoard
             then mkState newBoard false true (flags st)
             else mkState newBoard false false (flags st)).
Proof.
  intros Hover Hwon Hc Hrev Hflag. unfold revealCell.
  rewrite Hover, Hwon, Hc. cbn [orb bind]. rewrite Hrev, Hflag. cbn [orb].
  rewrite (alterCell_Ok _ _ _ _ _ Hc). cbn [bind].
  rewrite (cellAt_alter_eq _ _ _ _ _ Hc). cbn [bind].
  unfold revealedBoard. cbn [set_revealed mine].
  destruct (mine c); [done|]. by destruct (allSafeRevealed _).
Qed.

(** [toggleFlag] past its two guards. *)
Lemma toggleFlag_playing (st : GameState) (row col : Z) (c : Cell) :
  gameOver st = false -> gameWon st = false ->
  cellAt (board st) row col = Ok c ->
  revealed c = false ->
  toggleFlag st row col
  = Ok (mkState (toggledBoard (board st) row col) false false
                (if flagged c then flags st + 1 else flags st - 1)).
Proof.
  intros Hover Hwon Hc Hrev. unfold toggleFlag.
  rewrite Hover, Hwon, Hc. cbn [orb bind]. rewrite Hrev.
  rewrite (alterCell_Ok _ _ _ _ _ Hc). cbn [bind].
  rewrite (cellAt_alter_eq _ _ _ _ _ Hc). cbn [bind].
  unfold toggledBoard. cbn [set_flagged flagged].
  by destruct (flagged c).
Qed.

(** What a handler does, by cases on its guards. *)
Lemma revealCell_cases (st : GameState) (row col : Z) :
  (revealCell st row col = Ok st /\
   (gameOver st = true \/ gameWon st = true \/
    exists c, cellAt (board st) row col = Ok c /\
              (revealed c = true \/ flagged c = true))) \/
  (revealCell st row col = Throw TypeError /\
   gameOver st = false /\ gameWon st = false /\
   cellAt (board st) row col = Throw TypeError) \/
  (exists c, gameOver st = false /\ gameWon st = false /\
             cellAt (board st) row col = Ok c /\
             revealed c = false /\ flagged c = false).
Proof.
  destruct (gameOver st) eqn:Hover.
  { left. unfold revealCell. rewrite Hover. auto. }
  destruct (gameWon st) eqn:Hwon.
  { left. unfold revealCell. rewrite Hover, Hwon. auto. }
  destruct (cellAt (board st) row col) as [c|[]] eqn:Hc.
  - destruct (revealed c) eqn:Hrev; [|destruct (flagged c) eqn:Hflag].
    + left. unfold revealCell. rewrite Hover, Hwon, Hc. cbn [orb bind].
      rewrite Hrev. eauto 8.
    + left. unfold revealCell. rewrite Hover, Hwon, Hc. cbn [orb bind].
      rewrite Hrev, Hflag. eauto 8.
    + right. right. eauto 8.
  - right. left. unfold revealCell. rewrite Hover, Hwon, Hc. auto.
Qed.

Lemma toggleFlag_cases (st : GameState) (row col : Z) :
  (toggleFlag st row col = Ok st /\
   (gameOver st = true \/ gameWon st = true \/
    exists c, cellAt (board st) row col = Ok c /\ revealed c = true)) \/
  (toggleFlag st row col = Throw TypeError /\
   gameOver st = false /\ gameWon st = false /\
   cellAt (board st) row col = Throw TypeError) \/
  (exists c, gameOver st = false /\ gameWon st = false /\
             cellAt (board st) row col = Ok c /\ revealed c = false).
Proof.
  destruct (gameOver st) eqn:Hover.
  { left. unfold toggleFlag. rewrite Hover. auto. }
  destruct (gameWon st) eqn:Hwon.
  { left. unfold toggleFlag. rewrite Hover, Hwon. auto. }
  destruct (cellAt (board st) row col) as [c|[]] eqn:Hc.
  - destruct (revealed c) eqn:Hrev.
    + left. unfold toggleFlag. rewrite Hover, Hwon, Hc. cbn [orb bind].
      rewrite Hrev. eauto 8.
    + right. right. eauto 8.
  - right. left. unfold toggleFlag. rewrite Hover, Hwon, Hc. auto.
Qed.

(** The state after a [Reveal] is the state before, or the one
    [revealCell_playing] describes. *)
Lemma dispatch_reveal (st : GameState) (row col : Z) :
  (dispatch st (Reveal row col) = st /\
   (gameOver st = true \/ gameWon st = true \/
    cellAt (board st) row col = Throw TypeError \/
    exists c, cellAt (board st) row col = Ok c /\
              (revealed c = true \/ flagged c = true))) \/
  (exists c, gameOver st = false /\ gameWon st = false /\
     cellAt (board st) row col = Ok c /\
     revealed c = false /\ flagged c = false /\
     dispatch st (Reveal row col)
     = let newBoard := revealedBoard (board st) row col in
       if mine c then mkState newBoard true false (flags st)
       else if allSafeRevealed newBoard
            then mkState newBoard false true (flags st)
            else mkState newBoard false false (flags st)).
Proof.
  unfold dispatch, handle.
  destruct (revealCell_cases st row col)
    as [[-> H]|[[-> (Ho & Hw & Hc)]|(c & Ho & Hw & Hc & Hr & Hf)]].
  - left. split; [done|]. tauto.
  - left. split; [done|]. tauto.
  - right. exists c. rewrite (revealCell_playing st row col c) by done.
    auto 10.
Qed.

Lemma dispatch_toggle (st : GameState) (row col : Z) :
  dispatch st (ToggleFlag row col) = st \/
  (exists c, gameOver st = false /\ gameWon st = false /\
     cellAt (board st) row col = Ok c /\ revealed c = false /\
     dispatch st (ToggleFlag row col)
     = mkState (toggledBoard (board st) row col) false false
               (if flagged c then flags st + 1 else flags st - 1)).
Proof.
  unfold dispatch, handle.
  destruct (toggleFlag_cases st row col)
    as [[-> H]|[[-> _]|(c & Ho & Hw & Hc & Hr)]]; [by left..|].
  right. exists c. rewrite (toggleFlag_playing st row col c) by done.
  auto 10.
Qed.

Lemma run_invariant (P : GameState -> Prop) (st : GameState)
    (acts : list action) :
  (forall st a, P st -> P (dispatch st a)) -> P st -> P (run st acts).
Proof.
  intros Hstep. unfold run. revert st.
  induction acts as [|a acts IH]; intros st Hst; simpl; auto.
Qed.

Lemma dispatch_exclusive (st : GameState) (a : action) :
  exclusive st -> exclusive (dispatch st a).
Proof.
  intros Hex. destruct a as [row col|row col].
  - destruct (dispatch_reveal st row col)
      as [[-> _]|(c & _ & _ & _ & _ & _ & ->)]; [done|].
    unfold exclusive. cbn zeta.
    destruct (mine c); [|destruct (allSafeRevealed _)]; simpl; intros []; done.
  - destruct (dispatch_toggle st row col)
      as [->|(c & _ & _ & _ & _ & ->)]; [done|].
    unfold exclusive. simpl. intros []; done.
Qed.

Lemma dispatch_minesHidden (st : GameState) (a : action) :
  minesHidden st -> minesHidden (dispatch st a).
Proof.
  intros [Hhid Hwon]. destruct a as [row col|row col].
  - destruct (dispatch_reveal st row col)
      as [[-> _]|(c & Ho & Hw & Hc & Hr & Hf & ->)]; [done|].
    cbn zeta. destruct (mine c) eqn:Hm.
    { split; simpl; done. }
    assert (forall r k c',
              cellAt (revealedBoard (board st) row col) r k = Ok c' ->
              mine c' = true -> revealed c' = false) as Hnew.
    { intros r k c' Hc' Hm'. unfold revealedBoard in Hc'.
      rewrite (cellAt_alter _ _ _ _ _ r k Hc) in Hc'.
      case_decide; [|by eapply Hhid].
      injection Hc' as <-. simpl in Hm'. congruence. }
    destruct (allSafeRevealed _); split; simpl; done.
  - destruct (dispatch_toggle st row col)
      as [->|(c & Ho & Hw & Hc & Hr & ->)]; [done|].
    split; simpl; [|done]. intros _ r k c' Hc' Hm'.
    unfold toggledBoard in Hc'.
    rewrite (cellAt_alter _ _ _ _ _ r k Hc) in Hc'.
    case_decide; [|by eapply Hhid].
    injection Hc' as <-. simpl. done.
Qed.

Lemma dispatch_square (size : Z) (st : GameState) (a : action) :
  square size (board st) -> square size (board (dispatch st a)).
Proof.
  intros Hsq. destruct a as [row col|row col].
  - destruct (dispatch_reveal st row col)
      as [[-> _]|(c & _ & _ & _ & _ & _ & ->)]; [done|].
    cbn zeta. destruct (mine c); [|destruct (allSafeRevealed _)]; simpl;
      by apply square_alter.
  - destruct (dispatch_toggle st row col)
      as [->|(c & _ & _ & _ & _ & ->)]; [done|].
    simpl. by apply square_alter.
Qed.

(** A fresh game: the initial values of the four state variables. *)
Lemma newGame_inv (rnd : list (Z * Z)) (st0 : GameState) :
  newGame rnd = Some (Ok st0) ->
  generateBoard BOARD_SIZE TOTAL_MINES rnd = Some (Ok (board st0)) /\
  gameOver st0 = false /\ gameWon st0 = false /\ flags st0 = TOTAL_MINES.
Proof.
  unfold newGame.
  destruct (generateBoard BOARD_SIZE TOTAL_MINES rnd) as [[b|e]|]; [|done..].
  intros [= <-]. done.
Qed.

Lemma newGame_minesHidden (rnd : list (Z * Z)) (st0 : GameState) :
  newGame rnd = Some (Ok st0) -> minesHidden st0.
Proof.
  intros (Hgen & Ho & Hw & _)%newGame_inv. split; [|congruence].
  intros _ row col c Hc _.
  by destruct (generateBoard_cell _ _ _ _ Hgen row col c Hc) as (-> & _).
Qed.

(** Every state a game goes through has a [BOARD_SIZE] square board. *)
Lemma run_square (rnd : list (Z * Z)) (st0 : GameState) (acts : list action) :
  newGame rnd = Some (Ok st0) -> square BOARD_SIZE (board (run st0 acts)).
Proof.
  intros (Hgen & _)%newGame_inv.
  apply (run_invariant (fun st => square BOARD_SIZE (board st))).
  - intros st a. apply dispatch_square.
  - by apply (generateBoard_square _ _ _ _ Hgen).
Qed.

(** ** Facts of the sample game *)

Lemma validRnd_demoDraws : validRnd 10 demoDraws.
Proof.
  unfold validRnd, demoDraws, inGrid.
  repeat (apply Forall_cons; split; [simpl; lia|]). apply Forall_nil_2.
Defined.

Lemma validRnd_smallDraws : validRnd 3 smallDraws.
Proof.
  unfold validRnd, smallDraws, inGrid.
  repeat (apply Forall_cons; split; [simpl; lia|]). apply Forall_nil_2.
Defined.

Lemma newGame_demoDraws : newGame demoDraws = Some (Ok demoGame).
Proof. vm_compute. reflexivity. Defined.

(** ** The claims *)

(** C1.  In a state with [gameOver = false] and [gameWon = false], on a
    cell that is neither revealed nor flagged, [revealCell] does not throw
    and leaves at that position the cell with [revealed = true] and its
    [mine], [adjacentMines] and [flagged] as they were; [flags] is not
    changed.  If the cell is a mine the new state has [gameOver = true]
    and [gameWon] stays false whatever the board looks like (the win
    condition is not evaluated); otherwise [gameOver] stays false and
    [gameWon] is true exactly when every cell of the new board is revealed
    or a mine. *)
Theorem revealCell_effect (st : GameState) (row col : Z) (c : Cell) :
  gameOver st = false -> gameWon st = false ->
  cellAt (board st) row col = Ok c ->
  revealed c = false -> flagged c = false ->
  exists st' c',
    revealCell st row col = Ok st' /\
    cellAt (board st') row col = Ok c' /\
    revealed c' = true /\
    mine c' = mine c /\
    adjacentMines c' = adjacentMines c /\
    flagged c' = false /\
    c' = set_revealed true c /\
    flags st' = flags st /\
    (mine c = true -> gameOver st' = true /\ gameWon st' = false) /\
    (mine c = false ->
       gameOver st' = false /\
       (gameWon st' = true <-> allNonMinesRevealed (board st'))).
Proof.
  intros Hover Hwon Hc Hrev Hflag.
  rewrite (revealCell_playing st row col c) by done.
  eexists. exists (set_revealed true c).
  split; [reflexivity|]. cbn zeta.
  assert (cellAt (revealedBoard (board st) row col) row col
          = Ok (set_revealed true c)) as Hnew
    by apply (cellAt_alter_eq _ _ _ _ _ Hc).
  destruct (mine c) eqn:Hm.
  - simpl. split_and!; done.
  - destruct (allSafeRevealed _) eqn:Hall; simpl; split_and!; try done.
    + intros _. split; [done|]. split; [intros _|done].
      by apply allSafeRevealed_spec.
    + intros _. split; [done|]. split; [done|].
      intros Hspec%allSafeRevealed_spec. congruence.
Qed.

Lemma revealCell_effect_witness :
  (gameOver demoGame = false /\ gameWon demoGame = false /\
   cellAt (board demoGame) 0 0 = Ok (mkCell false false 0 false) /\
   revealed (mkCell false false 0 false) = false /\
   flagged (mkCell false false 0 false) = false) /\
  exists st',
    revealCell demoGame 0 0 = Ok st' /\
    cellAt (board st') 0 0 = Ok (mkCell true false 0 false) /\
    flags st' = flags demoGame /\
    gameOver st' = false.
Proof.
  assert (gameOver demoGame = false /\ gameWon demoGame = false /\
          cellAt (board demoGame) 0 0 = Ok (mkCell false false 0 false) /\
          revealed (mkCell false false 0 false) = false /\
          flagged (mkCell false false 0 false) = false) as H
    by (vm_compute; repeat split; reflexivity).
  split; [exact H|]. destruct H as (H1 & H2 & H3 & H4 & H5).
  destruct (revealCell_effect demoGame 0 0 (mkCell false false 0 false)
              H1 H2 H3 H4 H5)
    as (st' & c' & Hst' & Hcell & _ & _ & _ & _ & Hc' & Hflags & _ & Hsafe).
  exists st'. split; [exact Hst'|]. split; [|split].
  - rewrite Hcell, Hc'. reflexivity.
  - exact Hflags.
  - apply Hsafe. reflexivity.
Defined.

(** C2.  For [size > 0], [0 <= mines < size * size] and draws
    [Math.floor(Math.random() * size)] that are indices of the grid:
    generateBoard does not throw; it returns as soon as [mines] distinct
    cells are among the draws; and a board it returns is a [size] by
    [size] grid with exactly [mines] cells with [mine = true], which are
    the positions the placement loop assigned, no position assigned twice,
    and with [revealed = false] and [flagged = false] in every cell. *)
Theorem generateBoard_places_mines (size mines : Z) (rnd : list (Z * Z)) :
  0 < size -> 0 <= mines < size * size -> validRnd size rnd ->
  (forall e, generateBoard size mines rnd <> Some (Throw e)) /\
  ((exists ds, NoDup ds /\ (forall p, p ∈ ds -> p ∈ rnd) /\
               mines <= Z.of_nat (length ds)) ->
   exists b, generateBoard size mines rnd = Some (Ok b)) /\
  (forall b, generateBoard size mines rnd = Some (Ok b) ->
     square size b /\
     Z.of_nat (countMines b) = mines /\
     (exists b0 placed,
        placeMines size mines rnd (emptyBoard size) 0 []
        = Some (Ok (b0, placed)) /\
        NoDup placed /\ Z.of_nat (length placed) = mines /\
        forall p, mineAt b p = true <-> p ∈ placed) /\
     Forall (Forall (fun c => revealed c = false /\ flagged c = false)) b).
Proof.
  intros Hsize Hmines Hrnd. split_and!.
  - intros e. by apply generateBoard_no_throw.
  - intros (ds & Hnd & Hds & Hlen).
    by apply (generateBoard_returns size mines rnd ds).
  - intros b Hgen. split_and!.
    + by apply (generateBoard_square _ _ _ _ Hgen).
    + rewrite (generateBoard_countMines _ _ _ _ Hgen). lia.
    + destruct (generateBoard_placed _ _ _ _ Hgen)
        as (b0 & placed & Hplace & Hnd & Hlen & Hmem).
      exists b0, placed. split_and!; [done|done|lia|done].
    + apply Forall_cells. intros row col c Hc.
      destruct (generateBoard_cell _ _ _ _ Hgen row col c Hc) as (? & ? & _).
      done.
Qed.

Lemma generateBoard_places_mines_witness :
  (0 < 3 /\ 0 <= 2 < 3 * 3 /\ validRnd 3 smallDraws) /\
  exists b, generateBoard 3 2 smallDraws = Some (Ok b) /\
            Z.of_nat (countMines b) = 2.
Proof.
  assert (0 < 3 /\ 0 <= 2 < 3 * 3 /\ validRnd 3 smallDraws) as H
    by (split_and!; [lia..|apply validRnd_smallDraws]).
  split; [exact H|]. destruct H as (H1 & H2 & H3).
  destruct (generateBoard_places_mines 3 2 smallDraws H1 H2 H3)
    as (_ & _ & Hb).
  eexists. split; [vm_compute; reflexivity|].
  apply Hb. vm_compute. reflexivity.
Defined.

(** C3.  On a board generateBoard returns, a cell that is not a mine has in
    [adjacentMines] the number of its Moore neighbours inside the grid that
    are mines, a number between 0 and 8, and a cell that is a mine has
    [adjacentMines = 0]. *)
Theorem generateBoard_adjacentMines (size mines : Z) (rnd : list (Z * Z))
    (b : Board) (row col : Z) (c : Cell) :
  generateBoard size mines rnd = Some (Ok b) ->
  cellAt b row col = Ok c ->
  (mine c = false ->
   adjacentMines c = Z.of_nat (length (mineNeighbours size b (row, col))) /\
   0 <= adjacentMines c <= 8) /\
  (mine c = true -> adjacentMines c = 0).
Proof.
  intros Hgen Hc.
  destruct (generateBoard_cell _ _ _ _ Hgen row col c Hc) as (_ & _ & Hadj).
  split; intros Hm; rewrite Hm in Hadj; [|done].
  rewrite Hadj. split; [apply offsetCount_mineNeighbours|].
  apply offsetCount_bounds.
Qed.

Lemma generateBoard_adjacentMines_witness :
  (generateBoard 3 2 smallDraws
   = Some (Ok [[mkCell false true 0 false; mkCell false false 1 false;
                mkCell false false 0 false];
               [mkCell false false 1 false; mkCell false false 2 false;
                mkCell false false 1 false];
               [mkCell false false 0 false; mkCell false false 1 false;
                mkCell false true 0 false]])) /\
  length (mineNeighbours 3
            [[mkCell false true 0 false; mkCell false false 1 false;
              mkCell false false 0 false];
             [mkCell false false 1 false; mkCell false false 2 false;
              mkCell false false 1 false];
             [mkCell false false 0 false; mkCell false false 1 false;
              mkCell false true 0 false]] (1, 1)) = 2%nat.
Proof.
  assert (generateBoard 3 2 smallDraws
   = Some (Ok [[mkCell false true 0 false; mkCell false false 1 false;
                mkCell false false 0 false];
               [mkCell false false 1 false; mkCell false false 2 false;
                mkCell false false 1 false];
               [mkCell false false 0 false; mkCell false false 1 false;
                mkCell false true 0 false]])) as H
    by (vm_compute; reflexivity).
  split; [exact H|].
  destruct (generateBoard_adjacentMines 3 2 smallDraws _ 1 1
              (mkCell false false 2 false) H eq_refl) as [Hsafe _].
  destruct (Hsafe eq_refl) as [Hcount _].
  apply Nat2Z.inj. symmetry. exact Hcount.
Defined.

(** C4.  A call of [revealCell] leaves every cell other than the targeted
    one as it was, so at most the targeted cell's [revealed] changes, and
    it changes from false to true; when a guard rejects the call the whole
    state stays.  No neighbour of the targeted cell changes, whatever the
    cell's [adjacentMines] is: there is no cascade. *)
Theorem revealCell_frame (st : GameState) (row col : Z) :
  let st' := dispatch st (Reveal row col) in
  (forall r k, (r, k) <> (row, col) ->
     cellAt (board st') r k = cellAt (board st) r k) /\
  (cellAt (board st') row col = cellAt (board st) row col \/
   exists c, cellAt (board st) row col = Ok c /\ revealed c = false /\
             cellAt (board st') row col = Ok (set_revealed true c)) /\
  (gameOver st = true \/ gameWon st = true \/
   (exists c, cellAt (board st) row col = Ok c /\
              (revealed c = true \/ flagged c = true)) ->
   st' = st) /\
  (forall q, isNeighbour (row, col) q ->
     cellAt (board st') q.1 q.2 = cellAt (board st) q.1 q.2).
Proof.
  cbn zeta.
  assert (forall r k, (r, k) <> (row, col) ->
            cellAt (board (dispatch st (Reveal row col))) r k
            = cellAt (board st) r k) as Hframe.
  { intros r k Hne. destruct (dispatch_reveal st row col)
      as [[-> _]|(c & _ & _ & Hc & _ & _ & ->)]; [done|].
    cbn zeta. destruct (mine c); [|destruct (allSafeRevealed _)]; simpl;
      by apply (cellAt_alter_ne _ _ _ _ c). }
  split_and!.
  - exact Hframe.
  - destruct (dispatch_reveal st row col)
      as [[-> _]|(c & _ & _ & Hc & Hr & _ & ->)]; [by left|].
    right. exists c. split_and!; [done..|].
    cbn zeta. destruct (mine c); [|destruct (allSafeRevealed _)]; simpl;
      by apply cellAt_alter_eq.
  - intros Hguard. destruct (dispatch_reveal st row col)
      as [[-> _]|(c & Ho & Hw & Hc & Hr & Hf & _)]; [done|].
    destruct Hguard as [?|[?|(c' & Hc' & Hrf)]]; [congruence..|].
    assert (c' = c) as -> by congruence. destruct Hrf; congruence.
  - intros [r k] Hq. apply Hframe. intros [= -> ->].
    unfold isNeighbour in Hq. simpl in Hq. lia.
Qed.

Lemma revealCell_frame_witness :
  ((0, 1) <> (0, 0) /\ isNeighbour (0, 0) (0, 1)) /\
  cellAt (board (dispatch demoGame (Reveal 0 0))) 0 1
  = cellAt (board demoGame) 0 1.
Proof.
  assert ((0, 1) <> (0, 0) /\ isNeighbour (0, 0) (0, 1)) as H
    by (split; [discriminate|reflexivity]).
  split; [exact H|]. destruct H as [H1 H2].
  destruct (revealCell_frame demoGame 0 0) as (Hframe & _).
  exact (Hframe 0 1 H1).
Defined.

(** C5.  The guards are silent: in a state with [gameOver] or [gameWon]
    set, [revealCell] and [toggleFlag] return normally with the state
    unchanged, whatever the coordinates; so does [revealCell] on a cell
    that is revealed or flagged, and [toggleFlag] on a revealed cell. *)
Theorem guards_are_noops (st : GameState) (row col : Z) :
  (gameOver st = true \/ gameWon st = true ->
   revealCell st row col = Ok st /\ toggleFlag st row col = Ok st) /\
  (forall c, cellAt (board st) row col = Ok c ->
     revealed c = true \/ flagged c = true ->
     revealCell st row col = Ok st) /\
  (forall c, cellAt (board st) row col = Ok c ->
     revealed c = true ->
     toggleFlag st row col = Ok st).
Proof.
  split_and!.
  - intros [H|H]; unfold revealCell, toggleFlag; rewrite H;
      rewrite ?orb_true_r; done.
  - intros c Hc Hrf. unfold revealCell.
    destruct (gameOver st || gameWon st); [done|].
    rewrite Hc. cbn [bind].
    destruct Hrf as [-> | ->]; rewrite ?orb_true_r; done.
  - intros c Hc Hr. unfold toggleFlag.
    destruct (gameOver st || gameWon st); [done|].
    rewrite Hc. cbn [bind]. by rewrite Hr.
Qed.

Lemma guards_are_noops_witness :
  (gameOver demoLost = true /\
   cellAt (board demoRevealed) 0 0 = Ok (mkCell true false 0 false) /\
   revealed (mkCell true false 0 false) = true) /\
  revealCell demoLost 3 3 = Ok demoLost /\
  toggleFlag demoLost 3 3 = Ok demoLost /\
  revealCell demoRevealed 0 0 = Ok demoRevealed /\
  toggleFlag demoRevealed 0 0 = Ok demoRevealed.
Proof.
  assert (gameOver demoLost = true /\
          cellAt (board demoRevealed) 0 0 = Ok (mkCell true false 0 false) /\
          revealed (mkCell true false 0 false) = true) as H
    by (vm_compute; repeat split; reflexivity).
  split; [exact H|]. destruct H as (H1 & H2 & H3).
  destruct (guards_are_noops demoLost 3 3) as (Hterm & _ & _).
  destruct (guards_are_noops demoRevealed 0 0) as (_ & Hrev & Htog).
  destruct (Hterm (or_introl H1)) as [Ha Hb].
  split_and!; [exact Ha|exact Hb| |].
  - exact (Hrev _ H2 (or_introl H3)).
  - exact (Htog _ H2 H3).
Defined.

(** Flipping the flag of a cell twice gives the board back. *)
Lemma toggledBoard_involutive (b : Board) (row col : Z) :
  toggledBoard (toggledBoard b row col) row col = b.
Proof.
  unfold toggledBoard.
  rewrite list_alter_alter_eq.
  apply list_alter_id. intros r. simpl.
  rewrite list_alter_alter_eq.
  apply list_alter_id. intros [rv mn adj fl]. unfold set_flagged. simpl.
  by rewrite negb_involutive.
Qed.

(** C6, as the code has it.  A fresh game starts with [flags] equal to
    [TOTAL_MINES].  In a state with [gameOver = false] and
    [gameWon = false], [toggleFlag] on a cell that is not revealed flips
    the cell's [flagged]; on an unflagged cell it takes 1 from [flags], on
    a flagged cell it unflags the cell and gives 1 back to [flags]; and a
    second [toggleFlag] on the same cell gives back the state before the
    first. *)
Theorem toggleFlag_accounting (st : GameState) (row col : Z) (c : Cell) :
  gameOver st = false -> gameWon st = false ->
  cellAt (board st) row col = Ok c -> revealed c = false ->
  (forall rnd st0, newGame rnd = Some (Ok st0) -> flags st0 = TOTAL_MINES) /\
  exists st1,
    toggleFlag st row col = Ok st1 /\
    cellAt (board st1) row col = Ok (set_flagged (negb (flagged c)) c) /\
    (flagged c = false -> flags st1 = flags st - 1) /\
    (flagged c = true -> flags st1 = flags st + 1) /\
    toggleFlag st1 row col = Ok st.
Proof.
  intros Hover Hwon Hc Hrev. split.
  { intros rnd st0 H. by apply newGame_inv in H as (_ & _ & _ & ?). }
  rewrite (toggleFlag_playing st row col c) by done.
  eexists. split; [reflexivity|].
  assert (cellAt (toggledBoard (board st) row col) row col
          = Ok (set_flagged (negb (flagged c)) c)) as Hnew
    by exact (cellAt_alter_eq
                (fun cell => set_flagged (negb (flagged cell)) cell)
                _ _ _ _ Hc).
  split_and!.
  - exact Hnew.
  - intros ->. done.
  - intros ->. done.
  - rewrite (toggleFlag_playing
               (mkState (toggledBoard (board st) row col) false false _)
               row col _ eq_refl eq_refl Hnew Hrev).
    cbn [board flags set_flagged flagged].
    rewrite toggledBoard_involutive.
    destruct st as [b go gw fl]. simpl in *. subst go gw.
    do 2 f_equal. destruct (flagged c); simpl; lia.
Qed.

Lemma toggleFlag_accounting_witness :
  (gameOver demoGame = false /\ gameWon demoGame = false /\
   cellAt (board demoGame) 0 0 = Ok emptyCell /\
   revealed emptyCell = false) /\
  exists st1,
    toggleFlag demoGame 0 0 = Ok st1 /\ flags st1 = flags demoGame - 1 /\
    toggleFlag st1 0 0 = Ok demoGame.
Proof.
  assert (gameOver demoGame = false /\ gameWon demoGame = false /\
          cellAt (board demoGame) 0 0 = Ok emptyCell /\
          revealed emptyCell = false) as H
    by (vm_compute; repeat split; reflexivity).
  split; [exact H|]. destruct H as (H1 & H2 & H3 & H4).
  destruct (toggleFlag_accounting demoGame 0 0 emptyCell H1 H2 H3 H4)
    as (_ & st1 & Hst1 & _ & Hdec & _ & Hback).
  exists st1. split_and!; [done| |done]. by apply Hdec.
Defined.

(** C6 as stated fails: on the already flagged cell (0, 0) of the sample
    game, [toggleFlag] is not a no-op; it removes the flag and [flags] goes
    from 14 back to 15. *)
Lemma toggleFlag_on_flagged_cell_changes_state :
  cellAt (board demoFlagged) 0 0 = Ok (mkCell false false 0 true) /\
  flags demoFlagged = 14 /\
  toggleFlag demoFlagged 0 0 = Ok demoGame /\
  flags demoGame = 15 /\
  toggleFlag demoFlagged 0 0 <> Ok demoFlagged.
Proof. vm_compute. split_and!; try reflexivity. discriminate. Qed.

(** C7.  In a game started from a fresh state, after any number of steps
    of any sequence of [revealCell] and [toggleFlag] calls, [gameOver] and
    [gameWon] are not both true. *)
Theorem never_over_and_won (rnd : list (Z * Z)) (st0 : GameState)
    (acts : list action) (n : nat) :
  newGame rnd = Some (Ok st0) ->
  ~ (gameOver (run st0 (take n acts)) = true /\
     gameWon (run st0 (take n acts)) = true).
Proof.
  intros (_ & Ho & Hw & _)%newGame_inv.
  apply (run_invariant exclusive).
  - apply dispatch_exclusive.
  - unfold exclusive. rewrite Ho. intros []; done.
Qed.

Lemma never_over_and_won_witness :
  newGame demoDraws = Some (Ok demoGame) /\
  ~ (gameOver (run demoGame (take 3 (Reveal 0 9 :: demoWinningActs))) = true /\
     gameWon (run demoGame (take 3 (Reveal 0 9 :: demoWinningActs))) = true).
Proof.
  split; [exact newGame_demoDraws|].
  exact (never_over_and_won demoDraws demoGame
           (Reveal 0 9 :: demoWinningActs) 3 newGame_demoDraws).
Defined.

(** C8 as stated fails: with [size = 1] and [mines = 1], so that
    [mines >= size * size], generateBoard does not fail; it returns the
    board whose only cell is a mine. *)
Lemma generateBoard_full_grid_returns :
  1 * 1 <= 1 /\
  generateBoard 1 1 [(0, 0)] = Some (Ok [[mkCell false true 0 false]]).
Proof. split; [lia|reflexivity]. Qed.

(** C8, as the code has it.  generateBoard checks nothing.  For
    [mines >= size * size], with [size > 0] and draws
    [Math.floor(Math.random() * size)] that are indices of the grid: it
    never throws; when [mines > size * size] the placement loop has not
    exited after any finite number of draws; when [mines = size * size] it
    returns once every cell of the grid is among the draws, and the board
    it returns has a mine in every cell.  With [size <= 0] the
    board is empty: the first draw throws a [TypeError] when [mines > 0],
    and the empty board is returned when [mines <= 0]. *)
Theorem generateBoard_unvalidated (size mines : Z) (rnd : list (Z * Z)) :
  size * size <= mines ->
  (0 < size -> validRnd size rnd ->
     (forall e, generateBoard size mines rnd <> Some (Throw e)) /\
     (size * size < mines -> generateBoard size mines rnd = None) /\
     (mines = size * size ->
        ((forall p, inGrid size p -> p ∈ rnd) ->
         exists b, generateBoard size mines rnd = Some (Ok b)) /\
        (forall b, generateBoard size mines rnd = Some (Ok b) ->
           square size b /\
           forall row col c, cellAt b row col = Ok c -> mine c = true))) /\
  (size <= 0 -> 0 < mines -> rnd <> [] ->
     generateBoard size mines rnd = Some (Throw TypeError)) /\
  (size <= 0 -> mines <= 0 -> generateBoard size mines rnd = Some (Ok [])).
Proof.
  intros Hge. split_and!.
  - intros Hsize Hrnd. split_and!.
    + intros e. by apply generateBoard_no_throw.
    + intros Hgt.
      destruct (generateBoard size mines rnd) as [[b|e]|] eqn:Hgen; [| |done].
      * destruct (generateBoard_mines_le size mines rnd b) as [Hle _];
          [lia|done|lia].
      * by apply generateBoard_no_throw in Hgen.
    + intros ->. split.
      * intros Hall.
        apply (generateBoard_returns size (size * size) rnd
                 (gridPositions size));
          [done|apply NoDup_gridPositions| |].
        -- intros p Hp. by apply Hall, elem_of_gridPositions.
        -- rewrite length_gridPositions; lia.
      * intros b Hgen. split; [by apply (generateBoard_square _ _ _ _ Hgen)|].
        destruct (generateBoard_mines_le size (size * size) rnd b)
          as [_ Hfull];
          [lia|done|].
        apply Hfull. lia.
  - intros Hsize Hmines Hne. unfold generateBoard, emptyBoard.
    replace (Z.to_nat size) with 0%nat by lia.
    destruct rnd as [|[row col] rnd]; [done|]. simpl.
    destruct (Z.ltb_spec 0 mines); [|lia].
    unfold cellAt, at_index. by destruct (0 <=? row).
  - intros Hsize Hmines. unfold generateBoard, emptyBoard.
    replace (Z.to_nat size) with 0%nat by lia. cbn [replicate].
    assert (placeMines size mines rnd [] 0 [] = Some (Ok ([], []))) as ->.
    { destruct rnd as [|[row col] rnd]; simpl;
        by destruct (Z.ltb_spec 0 mines); [lia|]. }
    unfold calculateAdjacent. by rewrite seqZ_nil.
Qed.

Lemma generateBoard_unvalidated_witness :
  (3 * 3 <= 9 /\ 0 < 3 /\ validRnd 3 (gridPositions 3) /\ 9 = 3 * 3) /\
  (forall b, generateBoard 3 9 (gridPositions 3) = Some (Ok b) ->
     forall row col c, cellAt b row col = Ok c -> mine c = true) /\
  generateBoard 3 10 (gridPositions 3) = None.
Proof.
  assert (3 * 3 <= 9 /\ 0 < 3 /\ validRnd 3 (gridPositions 3) /\ 9 = 3 * 3)
    as H by (split_and!; [lia|lia|apply validRnd_gridPositions|lia]).
  split; [exact H|]. destruct H as (H1 & H2 & H3 & H4).
  destruct (generateBoard_unvalidated 3 9 (gridPositions 3) H1)
    as (Hpos & _ & _).
  destruct (Hpos H2 H3) as (_ & _ & Hfull).
  destruct (Hfull H4) as (_ & Hmines).
  split; [intros b Hb; by apply (Hmines b Hb)|].
  vm_compute. reflexivity.
Defined.

Lemma cellAt_Throw_iff (size : Z) (b : Board) (row col : Z) :
  square size b ->
  cellAt b row col = Throw TypeError <-> ~ inGrid size (row, col).
Proof.
  intros Hsq. pose proof (cellAt_square size b row col Hsq) as Hiff.
  unfold inGrid; simpl. destruct (cellAt b row col) as [c|[]].
  - split; [done|]. intros Hout. destruct Hout. apply Hiff. eauto.
  - split; [|done]. intros _ Hin. apply Hiff in Hin as [c ?]. done.
Qed.

Lemma revealCell_Throw_iff (st : GameState) (row col : Z) :
  revealCell st row col = Throw TypeError <->
  gameOver st = false /\ gameWon st = false /\
  cellAt (board st) row col = Throw TypeError.
Proof.
  destruct (revealCell_cases st row col)
    as [[Heq H]|[[Heq (Ho & Hw & Hc)]|(c & Ho & Hw & Hc & Hr & Hf)]].
  - rewrite Heq. split; [done|]. intros (Ho & Hw & Hc).
    destruct H as [?|[?|(c & Hc' & _)]]; congruence.
  - rewrite Heq. done.
  - rewrite (revealCell_playing st row col c) by done.
    split; [done|]. intros (_ & _ & ?). congruence.
Qed.

Lemma toggleFlag_Throw_iff (st : GameState) (row col : Z) :
  toggleFlag st row col = Throw TypeError <->
  gameOver st = false /\ gameWon st = false /\
  cellAt (board st) row col = Throw TypeError.
Proof.
  destruct (toggleFlag_cases st row col)
    as [[Heq H]|[[Heq (Ho & Hw & Hc)]|(c & Ho & Hw & Hc & Hr)]].
  - rewrite Heq. split; [done|]. intros (Ho & Hw & Hc).
    destruct H as [?|[?|(c & Hc' & _)]]; congruence.
  - rewrite Heq. done.
  - rewrite (toggleFlag_playing st row col c) by done.
    split; [done|]. intros (_ & _ & ?). congruence.
Qed.

(** C9 as stated fails: in the fresh sample game, [revealCell] at row 10
    and [toggleFlag] at column -1 throw a [TypeError]. *)
Lemma handlers_throw_on_sample_game :
  newGame demoDraws = Some (Ok demoGame) /\
  revealCell demoGame 10 0 = Throw TypeError /\
  toggleFlag demoGame 0 (-1) = Throw TypeError.
Proof. vm_compute. split_and!; reflexivity. Qed.

(** C9, as the code has it.  On a [size] by [size] board, [revealCell] and
    [toggleFlag] return normally for every [row] and [col] inside
    [0, size), and for every [row] and [col] whatever once [gameOver] or
    [gameWon] is set; while neither is set, they throw a [TypeError] for
    every [row] or [col] outside [0, size). *)
Theorem handlers_throw_outside_grid (size : Z) (st : GameState) (row col : Z) :
  square size (board st) ->
  (revealCell st row col = Throw TypeError <->
   gameOver st = false /\ gameWon st = false /\ ~ inGrid size (row, col)) /\
  (toggleFlag st row col = Throw TypeError <->
   gameOver st = false /\ gameWon st = false /\ ~ inGrid size (row, col)) /\
  (gameOver st = true \/ gameWon st = true \/ inGrid size (row, col) ->
   (exists st', revealCell st row col = Ok st') /\
   (exists st', toggleFlag st row col = Ok st')).
Proof.
  intros Hsq.
  pose proof (cellAt_Throw_iff size (board st) row col Hsq) as Hthrow.
  pose proof (revealCell_Throw_iff st row col) as Hrev.
  pose proof (toggleFlag_Throw_iff st row col) as Htog.
  split_and!.
  - rewrite Hrev, Hthrow. done.
  - rewrite Htog, Hthrow. done.
  - intros Hok.
    assert (~ (gameOver st = false /\ gameWon st = false /\
               cellAt (board st) row col = Throw TypeError)) as Hno.
    { rewrite Hthrow. intros (Ho & Hw & Hout).
      destruct Hok as [?|[?|?]]; [congruence..|done]. }
    split.
    + destruct (revealCell st row col) as [st'|[]]; [eauto|].
      destruct Hno. by apply Hrev.
    + destruct (toggleFlag st row col) as [st'|[]]; [eauto|].
      destruct Hno. by apply Htog.
Qed.

Lemma handlers_throw_outside_grid_witness :
  square 10 (board demoGame) /\
  (exists st', revealCell demoGame 9 9 = Ok st') /\
  (revealCell demoGame 10 0 = Throw TypeError <->
   gameOver demoGame = false /\ gameWon demoGame = false /\
   ~ inGrid 10 (10, 0)).
Proof.
  assert (generateBoard 10 15 demoDraws = Some (Ok (board demoGame))) as Hgen
    by (vm_compute; reflexivity).
  assert (square 10 (board demoGame)) as H
    by exact (generateBoard_square 10 15 demoDraws (board demoGame) Hgen).
  split; [exact H|].
  destruct (handlers_throw_outside_grid 10 demoGame 9 9 H) as (_ & _ & Hin).
  destruct (handlers_throw_outside_grid 10 demoGame 10 0 H) as (Hout & _).
  split; [|exact Hout].
  apply Hin. right. right. unfold inGrid. simpl. lia.
Defined.

(** C10.  In every state a game started from a fresh state reaches, if
    [gameWon] is true then no cell with [mine = true] has
    [revealed = true]. *)
Theorem won_game_hides_mines (rnd : list (Z * Z)) (st0 : GameState)
    (acts : list action) (row col : Z) (c : Cell) :
  newGame rnd = Some (Ok st0) ->
  gameWon (run st0 acts) = true ->
  cellAt (board (run st0 acts)) row col = Ok c ->
  mine c = true ->
  revealed c = false.
Proof.
  intros Hnew Hwon Hc Hm.
  assert (minesHidden (run st0 acts)) as [Hhid Hnot].
  { apply run_invariant; [apply dispatch_minesHidden|].
    by apply (newGame_minesHidden rnd). }
  by apply (Hhid (Hnot Hwon) row col c).
Qed.

Lemma won_game_hides_mines_witness :
  (newGame demoDraws = Some (Ok demoGame) /\
   gameWon (run demoGame demoWinningActs) = true /\
   cellAt (board (run demoGame demoWinningActs)) 0 9
   = Ok (mkCell false true 0 false) /\
   mine (mkCell false true 0 false) = true) /\
  revealed (mkCell false true 0 false) = false.
Proof.
  assert (newGame demoDraws = Some (Ok demoGame) /\
          gameWon (run demoGame demoWinningActs) = true /\
          cellAt (board (run demoGame demoWinningActs)) 0 9
          = Ok (mkCell false true 0 false) /\
          mine (mkCell false true 0 false) = true) as H
    by (vm_compute; repeat split; reflexivity).
  split; [exact H|]. destruct H as (H1 & H2 & H3 & H4).
  exact (won_game_hides_mines demoDraws demoGame demoWinningActs 0 9
           (mkCell false true 0 false) H1 H2 H3 H4).
Defined.

(** ** More on the handlers *)

(** The fields of the state after a [Reveal] that passed the guards. *)
Lemma dispatch_reveal_fields (st : GameState) (row col : Z) :
  dispatch st (Reveal row col) = st \/
  exists c,
    gameOver st = false /\ gameWon st = false /\
    cellAt (board st) row col = Ok c /\
    revealed c = false /\ flagged c = false /\
    board (dispatch st (Reveal row col)) = revealedBoard (board st) row col /\
    flags (dispatch st (Reveal row col)) = flags st /\
    gameOver (dispatch st (Reveal row col)) = mine c /\
    gameWon (dispatch st (Reveal row col))
    = negb (mine c) && allSafeRevealed (revealedBoard (board st) row col).
Proof.
  destruct (dispatch_reveal st row col)
    as [[-> _]|(c & Ho & Hw & Hc & Hr & Hf & ->)]; [by left|].
  right. exists c. cbn zeta.
  destruct (mine c); [|destruct (allSafeRevealed _)]; simpl; auto 10.
Qed.

(** The fields of the state after a [ToggleFlag] that passed the guards. *)
Lemma dispatch_toggle_fields (st : GameState) (row col : Z) :
  dispatch st (ToggleFlag row col) = st \/
  exists c,
    gameOver st = false /\ gameWon st = false /\
    cellAt (board st) row col = Ok c /\ revealed c = false /\
    board (dispatch st (ToggleFlag row col))
    = toggledBoard (board st) row col /\
    flags (dispatch st (ToggleFlag row col))
    = (if flagged c then flags st + 1 else flags st - 1) /\
    gameOver (dispatch st (ToggleFlag row col)) = false /\
    gameWon (dispatch st (ToggleFlag row col)) = false.
Proof.
  destruct (dispatch_toggle st row col)
    as [->|(c & Ho & Hw & Hc & Hr & ->)]; [by left|].
  right. exists c. simpl. auto 10.
Qed.

Lemma reachable_invariant (P : GameState -> Prop) :
  (forall rnd st, newGame rnd = Some (Ok st) -> P st) ->
  (forall st a, P st -> P (dispatch st a)) ->
  forall st, reachable st -> P st.
Proof.
  intros Hnew Hstep st. induction 1 as [rnd st H|st a _ IH|st rnd st' _ _ H].
  - by apply (Hnew rnd).
  - by apply Hstep.
  - by apply (Hnew rnd).
Qed.

Lemma run_app (st : GameState) (acts1 acts2 : list action) :
  run st (acts1 ++ acts2) = run (run st acts1) acts2.
Proof. apply foldl_app. Qed.

Lemma reachable_run (st : GameState) (acts : list action) :
  reachable st -> reachable (run st acts).
Proof.
  intros Hst. apply (run_invariant reachable); [|done].
  intros st' a. apply reachable_dispatch.
Qed.

(** An update of a cell that keeps [mine] and [adjacentMines] keeps the
    layout. *)
Lemma layout_alter (f : Cell -> Cell) (b : Board) (i j : nat) :
  (forall c, mine (f c) = mine c /\ adjacentMines (f c) = adjacentMines c) ->
  layout (alter (alter f j) i b) = layout b.
Proof.
  intros Hf. unfold layout.
  rewrite (list_fmap_alter _ (alter f j) id).
  - apply list_alter_id. done.
  - apply Forall_forall. intros r _. simpl.
    rewrite (list_fmap_alter _ f id).
    + apply list_alter_id. done.
    + apply Forall_forall. intros c _. simpl.
      by destruct (Hf c) as [-> ->].
Qed.

Lemma dispatch_layout (st : GameState) (a : action) :
  layout (board (dispatch st a)) = layout (board st).
Proof.
  destruct a as [row col|row col].
  - destruct (dispatch_reveal_fields st row col)
      as [->|(c & _ & _ & _ & _ & _ & -> & _)]; [done|].
    by apply layout_alter.
  - destruct (dispatch_toggle_fields st row col)
      as [->|(c & _ & _ & _ & _ & -> & _)]; [done|].
    by apply layout_alter.
Qed.

(** Boards with the same layout have cells at the same positions, with the
    same [mine] and [adjacentMines]. *)
Lemma layout_cellAt (b b' : Board) (row col : Z) (c : Cell) :
  layout b = layout b' -> cellAt b row col = Ok c ->
  exists c', cellAt b' row col = Ok c' /\
             mine c' = mine c /\ adjacentMines c' = adjacentMines c.
Proof.
  intros Hlay (Hrow & Hcol & r & Hr & Hc)%cellAt_Ok.
  assert (layout b !! Z.to_nat row
          = Some ((fun c => (mine c, adjacentMines c)) <$> r)) as Hl.
  { unfold layout. by rewrite list_lookup_fmap, Hr. }
  rewrite Hlay in Hl. unfold layout in Hl.
  apply list_lookup_fmap_Some in Hl as (r' & Heq & Hr').
  assert (((fun c => (mine c, adjacentMines c)) <$> r') !! Z.to_nat col
          = Some (mine c, adjacentMines c)) as Hl'.
  { rewrite <- Heq. by rewrite list_lookup_fmap, Hc. }
  apply list_lookup_fmap_Some in Hl' as (c' & [= Hm Ha] & Hc').
  exists c'. split_and!; [|done..]. apply cellAt_Ok. eauto 6.
Qed.

Lemma layout_mineAt (b b' : Board) (p : Z * Z) :
  layout b = layout b' -> mineAt b p = mineAt b' p.
Proof.
  intros Hlay. unfold mineAt.
  destruct (cellAt b p.1 p.2) as [c|] eqn:Hc.
  - destruct (layout_cellAt b b' _ _ c Hlay Hc) as (c' & -> & Hm & _). done.
  - destruct (cellAt b' p.1 p.2) as [c'|] eqn:Hc'; [|done].
    destruct (layout_cellAt b' b _ _ c' (eq_sym Hlay) Hc') as (c & Hc2 & _).
    congruence.
Qed.

(** The board after an action: unchanged, or one cell that was not
    revealed updated, by [revealCell] if it was not flagged either, or by
    [toggleFlag]. *)
Lemma dispatch_board_cases (st : GameState) (a : action) :
  board (dispatch st a) = board st \/
  exists row col c f,
    cellAt (board st) row col = Ok c /\ revealed c = false /\
    board (dispatch st a)
    = alter (alter f (Z.to_nat col)) (Z.to_nat row) (board st) /\
    ((a = Reveal row col /\ flagged c = false /\ f = set_revealed true) \/
     (a = ToggleFlag row col /\
      f = fun cell => set_flagged (negb (flagged cell)) cell)).
Proof.
  destruct a as [row col|row col].
  - destruct (dispatch_reveal_fields st row col)
      as [->|(c & _ & _ & Hc & Hr & Hf & Hb & _)]; [by left|].
    right. exists row, col, c, (set_revealed true). auto 10.
  - destruct (dispatch_toggle_fields st row col)
      as [->|(c & _ & _ & Hc & Hr & Hb & _)]; [by left|].
    right. exists row, col, c,
      (fun cell => set_flagged (negb (flagged cell)) cell).
    split_and!; [done..|]. right. done.
Qed.

Lemma dispatch_terminal (st : GameState) (a : action) :
  gameOver st = true \/ gameWon st = true -> dispatch st a = st.
Proof.
  intros Hterm. destruct a as [row col|row col].
  - destruct (dispatch_reveal_fields st row col)
      as [->|(c & Ho & Hw & _)]; [done|]. destruct Hterm; congruence.
  - destruct (dispatch_toggle_fields st row col)
      as [->|(c & Ho & Hw & _)]; [done|]. destruct Hterm; congruence.
Qed.

Lemma dispatch_revealed_frozen (st : GameState) (a : action) (row col : Z)
    (c : Cell) :
  cellAt (board st) row col = Ok c -> revealed c = true ->
  cellAt (board (dispatch st a)) row col = Ok c.
Proof.
  intros Hc Hr. destruct (dispatch_board_cases st a)
    as [->|(row0 & col0 & c0 & f & Hc0 & Hr0 & -> & _)]; [done|].
  rewrite (cellAt_alter_ne f _ _ _ c0); [done..|].
  intros [= -> ->]. congruence.
Qed.

(** ** Further properties of the state machine *)

(** X1.  A state with [gameOver] or [gameWon] set is final: no sequence of
    [revealCell] and [toggleFlag] calls, with any coordinates, changes
    anything in it. *)
Theorem terminal_state_is_final (st : GameState) (acts : list action) :
  gameOver st = true \/ gameWon st = true -> run st acts = st.
Proof.
  intros Hterm. unfold run. induction acts as [|a acts IH]; [done|].
  simpl. by rewrite (dispatch_terminal st a Hterm).
Qed.

Lemma terminal_state_is_final_witness :
  gameOver demoLost = true /\
  run demoLost [Reveal 0 0; ToggleFlag 3 3; Reveal 12 (-1)] = demoLost.
Proof.
  assert (gameOver demoLost = true) as H by (vm_compute; reflexivity).
  split; [exact H|].
  exact (terminal_state_is_final demoLost
           [Reveal 0 0; ToggleFlag 3 3; Reveal 12 (-1)] (or_introl H)).
Defined.

(** X2.  A revealed cell never changes again: after any sequence of calls
    the cell at its position is the same, so it stays revealed and its
    flag cannot be toggled. *)
Theorem revealed_cell_is_frozen (st : GameState) (acts : list action)
    (row col : Z) (c : Cell) :
  cellAt (board st) row col = Ok c -> revealed c = true ->
  cellAt (board (run st acts)) row col = Ok c.
Proof.
  intros Hc Hr. unfold run. revert st Hc.
  induction acts as [|a acts IH]; intros st Hc; [done|].
  simpl. apply IH. by apply dispatch_revealed_frozen.
Qed.

Lemma revealed_cell_is_frozen_witness :
  (cellAt (board demoRevealed) 0 0 = Ok (mkCell true false 0 false) /\
   revealed (mkCell true false 0 false) = true) /\
  cellAt (board (run demoRevealed [ToggleFlag 0 0; Reveal 0 0; Reveal 0 1]))
         0 0
  = Ok (mkCell true false 0 false).
Proof.
  assert (cellAt (board demoRevealed) 0 0 = Ok (mkCell true false 0 false) /\
          revealed (mkCell true false 0 false) = true) as H
    by (vm_compute; split; reflexivity).
  split; [exact H|]. destruct H as [H1 H2].
  exact (revealed_cell_is_frozen demoRevealed
           [ToggleFlag 0 0; Reveal 0 0; Reveal 0 1] 0 0 _ H1 H2).
Defined.

(** X3.  The handlers never move a mine and never recompute an adjacency
    count: after any sequence of calls the board has the same shape and
    every cell has the [mine] and [adjacentMines] it had. *)
Theorem layout_is_immutable (st : GameState) (acts : list action) :
  layout (board (run st acts)) = layout (board st) /\
  forall row col c, cellAt (board st) row col = Ok c ->
    exists c', cellAt (board (run st acts)) row col = Ok c' /\
               mine c' = mine c /\ adjacentMines c' = adjacentMines c.
Proof.
  assert (layout (board (run st acts)) = layout (board st)) as Hlay.
  { apply (run_invariant
             (fun st' => layout (board st') = layout (board st))); [|done].
    intros st' a <-. apply dispatch_layout. }
  split; [exact Hlay|]. intros row col c Hc.
  by apply (layout_cellAt (board st)).
Qed.

(** X4.  [revealCell] is idempotent: a second call with the same
    coordinates, right after the first, changes nothing, whatever the
    state and the coordinates. *)
Theorem reveal_is_idempotent (st : GameState) (row col : Z) :
  dispatch (dispatch st (Reveal row col)) (Reveal row col)
  = dispatch st (Reveal row col).
Proof.
  destruct (dispatch_reveal_fields st row col)
    as [Heq|(c & _ & _ & Hc & _ & _ & Hb & _)]; [by rewrite !Heq|].
  destruct (dispatch_reveal_fields (dispatch st (Reveal row col)) row col)
    as [Heq'|(c' & _ & _ & Hc' & Hr' & _)]; [done|].
  rewrite Hb in Hc'. unfold revealedBoard in Hc'.
  rewrite (cellAt_alter_eq _ _ _ _ _ Hc) in Hc'.
  injection Hc' as <-. done.
Qed.

(** ** Counting cells *)

(** Changing one cell changes the number of cells with a boolean property
    set by what that cell contributes. *)
Lemma countField_alter (fld : Cell -> bool) (f : Cell -> Cell) (b : Board)
    (row col : Z) (c : Cell) :
  cellAt b row col = Ok c ->
  (length (filter (fun x => fld x = true)
             (concat (alter (alter f (Z.to_nat col)) (Z.to_nat row) b)))
   + (if fld c then 1 else 0)
   = length (filter (fun x => fld x = true) (concat b))
     + (if fld (f c) then 1 else 0))%nat.
Proof.
  intros (_ & _ & r & Hr & Hc)%cellAt_Ok.
  pose proof (filter_concat_length_alter (fun x => fld x = true)
                (alter f (Z.to_nat col)) b _ r Hr) as H1.
  pose proof (filter_length_alter (fun x => fld x = true) f r _ c Hc) as H2.
  destruct (fld c) eqn:?, (fld (f c)) eqn:?;
    repeat case_decide; try congruence; lia.
Qed.

Lemma countField_none (fld : Cell -> bool) (b : Board) :
  (forall row col c, cellAt b row col = Ok c -> fld c = false) ->
  length (filter (fun x => fld x = true) (concat b)) = 0%nat.
Proof.
  intros Hall. apply Forall_cells in Hall. apply Forall_concat in Hall.
  induction Hall as [|x l Hx _ IH]; [done|].
  rewrite filter_cons_False by congruence. exact IH.
Qed.

Lemma length_concat_square (size : Z) (b : Board) :
  0 <= size -> square size b -> Z.of_nat (length (concat b)) = size * size.
Proof.
  intros Hsize [Hlen Hrows].
  assert (length (concat b) = (length b * Z.to_nat size)%nat) as ->.
  { clear Hlen. induction Hrows as [|r b Hr _ IH]; [done|].
    simpl. rewrite length_app, IH, Hr. lia. }
  rewrite Hlen. lia.
Qed.

(** When every cell is revealed or a mine, the revealed cells and the
    mines cover the board. *)
Lemma allNonMinesRevealed_count (b : Board) :
  allNonMinesRevealed b ->
  (length (concat b) <= countRevealed b + countMines b)%nat.
Proof.
  intros Hall. unfold countRevealed, countMines.
  assert (Forall (fun c => revealed c = true \/ mine c = true) (concat b))
    as Hcells by (apply Forall_concat, Forall_cells; exact Hall).
  induction Hcells as [|c l Hc _ IH]; [done|].
  rewrite !filter_cons. simpl.
  destruct (decide (revealed c = true)), (decide (mine c = true));
    simpl; try lia. tauto.
Qed.

(** ** The fresh state *)

Lemma newGame_fresh (rnd : list (Z * Z)) (st : GameState) :
  newGame rnd = Some (Ok st) ->
  gameOver st = false /\ gameWon st = false /\ flags st = TOTAL_MINES /\
  square BOARD_SIZE (board st) /\
  countMines (board st) = 15%nat /\
  adjacencyCorrect BOARD_SIZE (board st) /\
  forall row col c, cellAt (board st) row col = Ok c ->
    revealed c = false /\ flagged c = false.
Proof.
  intros (Hgen & Ho & Hw & Hf)%newGame_inv. split_and!; [done..| | | |].
  - by apply (generateBoard_square _ _ _ _ Hgen).
  - pose proof (generateBoard_countMines _ _ _ _ Hgen) as H.
    unfold TOTAL_MINES in H. lia.
  - intros row col c Hc.
    by destruct (generateBoard_cell _ _ _ _ Hgen row col c Hc) as (_ & _ & ?).
  - intros row col c Hc.
    by destruct (generateBoard_cell _ _ _ _ Hgen row col c Hc) as (? & ? & _).
Qed.

(** With fewer mines than cells, a returned board has a cell that is not a
    mine. *)
Lemma generateBoard_safe_cell (size mines : Z) (rnd : list (Z * Z))
    (b : Board) :
  0 < size -> mines < size * size ->
  generateBoard size mines rnd = Some (Ok b) ->
  exists row col c, cellAt b row col = Ok c /\ mine c = false.
Proof.
  intros Hsize Hmines Hgen.
  pose proof (generateBoard_square _ _ _ _ Hgen) as Hsq.
  destruct (generateBoard_placed _ _ _ _ Hgen)
    as (b0 & placed & _ & Hnd & Hlen & Hmem).
  destruct (decide (Forall (fun p => p ∈ placed) (gridPositions size)))
    as [Hall|Hex].
  - assert (gridPositions size ⊆+ placed) as Hsub.
    { apply NoDup_submseteq; [apply NoDup_gridPositions|].
      by apply Forall_forall. }
    apply submseteq_length in Hsub.
    pose proof (length_gridPositions size). lia.
  - apply not_Forall_Exists in Hex; [|apply _].
    apply Exists_exists in Hex as ([row col] & Hin & Hout).
    apply elem_of_gridPositions in Hin.
    destruct (proj2 (cellAt_square size b row col Hsq) Hin) as [c Hc].
    exists row, col, c. split; [done|].
    destruct (mine c) eqn:Hm; [|done]. destruct Hout. simpl.
    apply Hmem. unfold mineAt. simpl. by rewrite Hc.
Qed.

(** ** What the handlers keep *)

Lemma dispatch_countMines (st : GameState) (a : action) :
  countMines (board (dispatch st a)) = countMines (board st).
Proof.
  destruct (dispatch_board_cases st a)
    as [->|(row & col & c & f & Hc & _ & -> & Hf)]; [done|].
  apply (countMines_alter_same f _ _ _ c Hc).
  by destruct Hf as [(_ & _ & ->)|(_ & ->)].
Qed.

Lemma dispatch_flags (st : GameState) (a : action) :
  flags (dispatch st a) + Z.of_nat (countFlagged (board (dispatch st a)))
  = flags st + Z.of_nat (countFlagged (board st)).
Proof.
  destruct a as [row col|row col].
  - destruct (dispatch_reveal_fields st row col)
      as [->|(c & _ & _ & Hc & _ & _ & -> & -> & _)]; [done|].
    pose proof (countField_alter flagged (set_revealed true) _ _ _ _ Hc) as H.
    unfold countFlagged, revealedBoard. cbn [set_revealed flagged] in H. lia.
  - destruct (dispatch_toggle_fields st row col)
      as [->|(c & _ & _ & Hc & _ & -> & -> & _)]; [done|].
    pose proof (countField_alter flagged
                  (fun cell => set_flagged (negb (flagged cell)) cell)
                  _ _ _ _ Hc) as H.
    unfold countFlagged, toggledBoard. cbn [set_flagged flagged] in H.
    destruct (flagged c); cbn [negb] in H; lia.
Qed.

Lemma dispatch_countRevealed (st : GameState) (a : action) :
  (countRevealed (board (dispatch st a))
   <= countRevealed (board st) + (if isReveal a then 1 else 0))%nat.
Proof.
  destruct a as [row col|row col].
  - destruct (dispatch_reveal_fields st row col)
      as [->|(c & _ & _ & Hc & Hr & _ & -> & _)]; [lia|].
    pose proof (countField_alter revealed (set_revealed true) _ _ _ _ Hc) as H.
    unfold countRevealed, revealedBoard, isReveal.
    cbn [set_revealed revealed] in H. rewrite Hr in H. lia.
  - destruct (dispatch_toggle_fields st row col)
      as [->|(c & _ & _ & Hc & Hr & -> & _)]; [lia|].
    pose proof (countField_alter revealed
                  (fun cell => set_flagged (negb (flagged cell)) cell)
                  _ _ _ _ Hc) as H.
    unfold countRevealed, toggledBoard, isReveal.
    cbn [set_flagged revealed] in H. rewrite Hr in H. lia.
Qed.

Lemma run_countRevealed (st : GameState) (acts : list action) :
  (countRevealed (board (run st acts))
   <= countRevealed (board st)
      + length (filter (fun a => isReveal a = true) acts))%nat.
Proof.
  unfold run. revert st. induction acts as [|a acts IH]; intros st.
  - simpl. lia.
  - simpl. specialize (IH (dispatch st a)).
    pose proof (dispatch_countRevealed st a) as Hstep.
    rewrite filter_cons. destruct (isReveal a); case_decide;
      cbn [length] in *; try lia; congruence.
Qed.

Lemma dispatch_not_revealed_and_flagged (st : GameState) (a : action) :
  (forall row col c, cellAt (board st) row col = Ok c ->
     ~ (revealed c = true /\ flagged c = true)) ->
  forall row col c, cellAt (board (dispatch st a)) row col = Ok c ->
    ~ (revealed c = true /\ flagged c = true).
Proof.
  intros Hinv row col c.
  destruct (dispatch_board_cases st a)
    as [->|(row0 & col0 & c0 & f & Hc0 & Hr0 & -> & Hf)]; [apply Hinv|].
  rewrite (cellAt_alter f _ _ _ _ row col Hc0).
  case_decide; [|apply Hinv]. intros [= <-].
  destruct Hf as [(_ & Hf0 & ->)|(_ & ->)]; simpl; intros []; congruence.
Qed.

Lemma dispatch_loss (st : GameState) (a : action) :
  (gameOver st = true <-> mineRevealed (board st)) ->
  (gameOver (dispatch st a) = true <-> mineRevealed (board (dispatch st a))).
Proof.
  intros Hinv. destruct a as [row col|row col].
  - destruct (dispatch_reveal_fields st row col)
      as [->|(c & Ho & _ & Hc & _ & _ & -> & _ & -> & _)]; [done|].
    unfold revealedBoard. split.
    + intros Hm. exists row, col, (set_revealed true c).
      by rewrite (cellAt_alter_eq _ _ _ _ _ Hc).
    + intros (r & k & c' & Hc' & Hm' & Hr').
      rewrite (cellAt_alter _ _ _ _ _ r k Hc) in Hc'.
      case_decide; [by injection Hc' as <-|].
      assert (gameOver st = true) by (apply Hinv; by exists r, k, c').
      congruence.
  - destruct (dispatch_toggle_fields st row col)
      as [->|(c & Ho & _ & Hc & Hr & -> & _ & -> & _)]; [done|].
    unfold toggledBoard. split; [done|].
    intros (r & k & c' & Hc' & Hm' & Hr').
    rewrite (cellAt_alter _ _ _ _ _ r k Hc) in Hc'.
    case_decide; [injection Hc' as <-; simpl in Hr'; congruence|].
    assert (gameOver st = true) by (apply Hinv; by exists r, k, c').
    congruence.
Qed.

(** Toggling a flag does not change whether every safe cell is
    revealed. *)
Lemma allNonMinesRevealed_toggled (b : Board) (row col : Z) (c : Cell) :
  cellAt b row col = Ok c ->
  allNonMinesRevealed (toggledBoard b row col) -> allNonMinesRevealed b.
Proof.
  intros Hc Hall r k c' Hc'. unfold toggledBoard in Hall.
  destruct (decide ((r, k) = (row, col))) as [[= -> ->]|Hne].
  - assert (c' = c) as -> by congruence.
    apply (Hall row col (set_flagged (negb (flagged c)) c)).
    exact (cellAt_alter_eq
             (fun cell => set_flagged (negb (flagged cell)) cell)
             b row col c Hc).
  - apply (Hall r k c'). by rewrite (cellAt_alter_ne _ _ _ _ c).
Qed.

Lemma dispatch_win (st : GameState) (a : action) :
  (gameOver st = false ->
   (gameWon st = true <-> allNonMinesRevealed (board st))) ->
  (gameOver (dispatch st a) = false ->
   (gameWon (dispatch st a) = true
    <-> allNonMinesRevealed (board (dispatch st a)))).
Proof.
  intros Hinv. destruct a as [row col|row col].
  - destruct (dispatch_reveal_fields st row col)
      as [->|(c & Ho & _ & Hc & _ & _ & -> & _ & -> & ->)]; [done|].
    intros ->. simpl. apply allSafeRevealed_spec.
  - destruct (dispatch_toggle_fields st row col)
      as [->|(c & Ho & Hw & Hc & Hr & -> & _ & -> & ->)]; [done|].
    intros _. split; [done|]. intros Hall.
    apply (allNonMinesRevealed_toggled _ _ _ c Hc), (Hinv Ho) in Hall.
    congruence.
Qed.

(** The adjacency counts are right on a board as soon as they are on a
    board with the same layout. *)
Lemma adjacencyCorrect_layout (size : Z) (b b' : Board) :
  layout b = layout b' -> adjacencyCorrect size b -> adjacencyCorrect size b'.
Proof.
  intros Hlay Hadj row col c' Hc'.
  destruct (layout_cellAt b' b row col c' (eq_sym Hlay) Hc')
    as (c & Hc & Hm & Ha).
  rewrite <- Ha, <- Hm, (Hadj row col c Hc).
  destruct (mine c); [done|]. unfold offsetCount. do 2 f_equal.
  apply list_filter_iff. intros d.
  by rewrite (layout_mineAt b b' _ Hlay).
Qed.

(** What holds in every state of the component. *)
Lemma reachable_facts (st : GameState) :
  reachable st ->
  square BOARD_SIZE (board st) /\
  countMines (board st) = 15%nat /\
  adjacencyCorrect BOARD_SIZE (board st) /\
  (forall row col c, cellAt (board st) row col = Ok c ->
     ~ (revealed c = true /\ flagged c = true)) /\
  flags st + Z.of_nat (countFlagged (board st)) = TOTAL_MINES /\
  (gameOver st = true <-> mineRevealed (board st)) /\
  (gameOver st = false ->
   (gameWon st = true <-> allNonMinesRevealed (board st))) /\
  (gameWon st = true -> gameOver st = false).
Proof.
  revert st. apply reachable_invariant.
  - intros rnd st Hnew.
    pose proof (newGame_fresh rnd st Hnew)
      as (Ho & Hw & Hf & Hsq & Hcnt & Hadj & Hcells).
    split_and!; try done.
    + intros row col c Hc. destruct (Hcells row col c Hc) as [-> _].
      intros []; done.
    + unfold countFlagged.
      rewrite (countField_none flagged); [lia|].
      intros row col c Hc. by destruct (Hcells row col c Hc).
    + rewrite Ho. split; [done|]. intros (row & col & c & Hc & _ & Hr).
      destruct (Hcells row col c Hc). congruence.
    + intros _. rewrite Hw. split; [done|]. intros Hall.
      apply newGame_inv in Hnew as (Hgen & _).
      destruct (generateBoard_safe_cell BOARD_SIZE TOTAL_MINES rnd (board st)
                  eq_refl eq_refl Hgen)
        as (row & col & c & Hc & Hm).
      destruct (Hcells row col c Hc) as [Hr _].
      destruct (Hall row col c Hc); congruence.
  - intros st a (Hsq & Hcnt & Hadj & Hrf & Hfl & Hloss & Hwin & Hex).
    split_and!.
    + by apply dispatch_square.
    + by rewrite dispatch_countMines.
    + apply (adjacencyCorrect_layout _ (board st)); [|done].
      symmetry. apply dispatch_layout.
    + by apply dispatch_not_revealed_and_flagged.
    + by rewrite dispatch_flags.
    + by apply dispatch_loss.
    + by apply dispatch_win.
    + assert (minesHidden (dispatch st a)) as [_ H]; [|exact H].
      apply dispatch_minesHidden. split; [|done].
      intros Ho row col c Hc Hm. destruct (revealed c) eqn:Hr; [|done].
      assert (gameOver st = true) by (apply Hloss; by exists row, col, c).
      congruence.
Qed.

Lemma reachable_demoGame : reachable demoGame.
Proof. exact (reachable_new demoDraws demoGame newGame_demoDraws). Defined.

(** X5.  In every state of the component, resets included, the board is
    10 by 10 and holds exactly 15 mines. *)
Theorem reachable_board_keeps_its_mines (st : GameState) :
  reachable st ->
  square BOARD_SIZE (board st) /\
  Z.of_nat (countMines (board st)) = TOTAL_MINES.
Proof.
  intros (Hsq & Hcnt & _)%reachable_facts. split; [done|].
  rewrite Hcnt. reflexivity.
Qed.

Lemma reachable_board_keeps_its_mines_witness :
  reachable demoLost /\
  square BOARD_SIZE (board demoLost) /\
  Z.of_nat (countMines (board demoLost)) = TOTAL_MINES.
Proof.
  assert (reachable demoLost) as H
    by exact (reachable_dispatch demoGame (Reveal 0 9) reachable_demoGame).
  split; [exact H|]. exact (reachable_board_keeps_its_mines demoLost H).
Defined.

(** X6.  In every state of the component, [flags] is [TOTAL_MINES] minus
    the number of flagged cells; it is never above [TOTAL_MINES] and can
    go below zero, down to [TOTAL_MINES] minus the number of cells. *)
Theorem flags_is_total_minus_flagged (st : GameState) :
  reachable st ->
  flags st = TOTAL_MINES - Z.of_nat (countFlagged (board st)) /\
  TOTAL_MINES - BOARD_SIZE * BOARD_SIZE <= flags st <= TOTAL_MINES.
Proof.
  intros (Hsq & _ & _ & _ & Hfl & _)%reachable_facts.
  split; [lia|].
  pose proof (length_concat_square BOARD_SIZE (board st)) as Hlen.
  pose proof (length_filter (fun c => flagged c = true) (concat (board st)))
    as Hle.
  unfold countFlagged in Hfl. unfold BOARD_SIZE in *.
  specialize (Hlen ltac:(lia) Hsq). lia.
Qed.

Lemma flags_is_total_minus_flagged_witness :
  reachable demoOverflagged /\
  flags demoOverflagged = -1 /\
  flags demoOverflagged
  = TOTAL_MINES - Z.of_nat (countFlagged (board demoOverflagged)).
Proof.
  assert (reachable demoOverflagged) as H
    by exact (reachable_run demoGame _ reachable_demoGame).
  split; [exact H|]. split; [vm_compute; reflexivity|].
  exact (proj1 (flags_is_total_minus_flagged demoOverflagged H)).
Defined.

(** X7.  In every state of the component no cell is both revealed and
    flagged. *)
Theorem revealed_cells_are_not_flagged (st : GameState) (row col : Z)
    (c : Cell) :
  reachable st -> cellAt (board st) row col = Ok c ->
  ~ (revealed c = true /\ flagged c = true).
Proof.
  intros (_ & _ & _ & Hrf & _)%reachable_facts Hc. by apply (Hrf row col).
Qed.

Lemma revealed_cells_are_not_flagged_witness :
  (reachable demoRevealed /\
   cellAt (board demoRevealed) 0 0 = Ok (mkCell true false 0 false)) /\
  ~ (revealed (mkCell true false 0 false) = true /\
     flagged (mkCell true false 0 false) = true).
Proof.
  assert (reachable demoRevealed /\
          cellAt (board demoRevealed) 0 0 = Ok (mkCell true false 0 false))
    as H.
  { split; [|vm_compute; reflexivity].
    exact (reachable_dispatch demoGame (Reveal 0 0) reachable_demoGame). }
  split; [exact H|]. destruct H as [H1 H2].
  exact (revealed_cells_are_not_flagged demoRevealed 0 0 _ H1 H2).
Defined.

(** X8.  In every state of the component, [gameOver] is set exactly when a
    mine of the board is revealed. *)
Theorem game_over_iff_mine_revealed (st : GameState) :
  reachable st -> (gameOver st = true <-> mineRevealed (board st)).
Proof. intros (_ & _ & _ & _ & _ & Hloss & _)%reachable_facts. done. Qed.

Lemma game_over_iff_mine_revealed_witness :
  reachable demoLost /\ gameOver demoLost = true /\
  mineRevealed (board demoLost).
Proof.
  assert (reachable demoLost) as H
    by exact (reachable_dispatch demoGame (Reveal 0 9) reachable_demoGame).
  assert (gameOver demoLost = true) as Ho by (vm_compute; reflexivity).
  split_and!; [exact H|exact Ho|].
  exact (proj1 (game_over_iff_mine_revealed demoLost H) Ho).
Defined.

(** X9.  In every state of the component, [gameWon] is set exactly when
    every cell that is not a mine is revealed and no mine is. *)
Theorem game_won_iff_all_safe_revealed (st : GameState) :
  reachable st ->
  (gameWon st = true <->
   allNonMinesRevealed (board st) /\ ~ mineRevealed (board st)).
Proof.
  intros (_ & _ & _ & _ & _ & Hloss & Hwin & Hex)%reachable_facts. split.
  - intros Hw. pose proof (Hex Hw) as Ho. split; [by apply Hwin|].
    intros Hm%Hloss. congruence.
  - intros [Hall Hno]. apply Hwin; [|done].
    destruct (gameOver st) eqn:Ho; [|done]. destruct Hno. by apply Hloss.
Qed.

Lemma game_won_iff_all_safe_revealed_witness :
  reachable (run demoGame demoWinningActs) /\
  gameWon (run demoGame demoWinningActs) = true /\
  allNonMinesRevealed (board (run demoGame demoWinningActs)).
Proof.
  assert (reachable (run demoGame demoWinningActs)) as H
    by exact (reachable_run demoGame demoWinningActs reachable_demoGame).
  assert (gameWon (run demoGame demoWinningActs) = true) as Hw
    by (vm_compute; reflexivity).
  split_and!; [exact H|exact Hw|].
  exact (proj1 (proj1 (game_won_iff_all_safe_revealed _ H) Hw)).
Defined.

(** X10.  In every state of the component, a cell that is not a mine holds
    in [adjacentMines] the number of its Moore neighbours in the grid that
    are mines. *)
Theorem adjacency_stays_correct (st : GameState) (row col : Z) (c : Cell) :
  reachable st -> cellAt (board st) row col = Ok c -> mine c = false ->
  adjacentMines c
  = Z.of_nat (length (mineNeighbours BOARD_SIZE (board st) (row, col))).
Proof.
  intros (_ & _ & Hadj & _)%reachable_facts Hc Hm.
  rewrite (Hadj row col c Hc), Hm. apply offsetCount_mineNeighbours.
Qed.

Lemma adjacency_stays_correct_witness :
  (reachable demoRevealed /\
   cellAt (board demoRevealed) 0 8 = Ok (mkCell false false 1 false) /\
   mine (mkCell false false 1 false) = false) /\
  1 = Z.of_nat (length (mineNeighbours BOARD_SIZE (board demoRevealed) (0, 8))).
Proof.
  assert (reachable demoRevealed /\
          cellAt (board demoRevealed) 0 8 = Ok (mkCell false false 1 false) /\
          mine (mkCell false false 1 false) = false) as H.
  { split; [|vm_compute; split; reflexivity].
    exact (reachable_dispatch demoGame (Reveal 0 0) reachable_demoGame). }
  split; [exact H|]. destruct H as (H1 & H2 & H3).
  exact (adjacency_stays_correct demoRevealed 0 8 _ H1 H2 H3).
Defined.

(** X11.  There is no shortcut to a win: a sequence of calls that takes a
    fresh game to [gameWon] holds at least as many [revealCell] calls as
    the board has cells that are not mines (85). *)
Theorem winning_takes_all_safe_reveals (rnd : list (Z * Z))
    (st0 : GameState) (acts : list action) :
  newGame rnd = Some (Ok st0) ->
  gameWon (run st0 acts) = true ->
  BOARD_SIZE * BOARD_SIZE - TOTAL_MINES
  <= Z.of_nat (length (filter (fun a => isReveal a = true) acts)).
Proof.
  intros Hnew Hw.
  pose proof (newGame_fresh rnd st0 Hnew) as (_ & _ & _ & _ & _ & _ & Hcells).
  assert (reachable (run st0 acts)) as Hreach
    by (apply reachable_run; by apply (reachable_new rnd)).
  apply reachable_facts in Hreach
    as (Hsq & Hcnt & _ & _ & _ & _ & Hwin & Hex).
  pose proof (proj1 (Hwin (Hex Hw)) Hw) as Hall.
  apply allNonMinesRevealed_count in Hall.
  pose proof (length_concat_square BOARD_SIZE _ ltac:(done) Hsq) as Hlen.
  pose proof (run_countRevealed st0 acts) as Hrev.
  assert (countRevealed (board st0) = 0%nat) as Hzero.
  { apply (countField_none revealed). intros row col c Hc.
    by destruct (Hcells row col c Hc). }
  unfold BOARD_SIZE, TOTAL_MINES in *. lia.
Qed.

Lemma winning_takes_all_safe_reveals_witness :
  (newGame demoDraws = Some (Ok demoGame) /\
   gameWon (run demoGame demoWinningActs) = true) /\
  BOARD_SIZE * BOARD_SIZE - TOTAL_MINES
  <= Z.of_nat (length (filter (fun a => isReveal a = true) demoWinningActs)).
Proof.
  assert (newGame demoDraws = Some (Ok demoGame) /\
          gameWon (run demoGame demoWinningActs) = true) as H
    by (split; [exact newGame_demoDraws|vm_compute; reflexivity]).
  split; [exact H|]. destruct H as [H1 H2].
  exact (winning_takes_all_safe_reveals demoDraws demoGame demoWinningActs
           H1 H2).
Defined.

(** ** More on generateBoard *)

Lemma mineAt_emptyBoard (size : Z) (p : Z * Z) :
  mineAt (emptyBoard size) p = false.
Proof.
  destruct (placeInv_init size) as (_ & _ & _ & _ & _ & Hmem).
  destruct (mineAt (emptyBoard size) p) eqn:Hm; [|done].
  apply Hmem in Hm. by apply elem_of_nil in Hm.
Qed.

Lemma cellAt_emptyBoard (size row col : Z) (c : Cell) :
  cellAt (emptyBoard size) row col = Ok c -> c = emptyCell.
Proof.
  intros (_ & _ & r & Hr & Hc)%cellAt_Ok. unfold emptyBoard in Hr.
  apply lookup_replicate in Hr as [-> _].
  by apply lookup_replicate in Hc as [-> _].
Qed.

Lemma filter_none {A} (P : A -> Prop) `{!forall x, Decision (P x)}
    (l : list A) :
  (forall x, ~ P x) -> filter P l = [].
Proof.
  intros Hno. induction l as [|x l IH]; [done|].
  by rewrite filter_cons_False.
Qed.

(** A square board is determined by its cells. *)
Lemma square_all_emptyCell (size : Z) (b : Board) :
  square size b ->
  (forall row col c, cellAt b row col = Ok c -> c = emptyCell) ->
  b = emptyBoard size.
Proof.
  intros [Hlen Hrows] Hcells. unfold emptyBoard. symmetry.
  apply replicate_as_Forall. split; [done|].
  apply (Forall_cells (fun c => c = emptyCell)) in Hcells.
  rewrite Forall_forall in Hrows, Hcells. apply Forall_forall.
  intros r Hr. apply replicate_as_Forall. split; [by apply Hrows|].
  eapply Forall_impl; [by apply Hcells|]. done.
Qed.

(** X12.  With [mines <= 0] generateBoard draws nothing and returns the
    board of [size] by [size] untouched cells, for every size (the empty
    board when [size <= 0]) and every random source. *)
Theorem generateBoard_without_mines (size mines : Z) (rnd : list (Z * Z)) :
  mines <= 0 -> generateBoard size mines rnd = Some (Ok (emptyBoard size)).
Proof.
  intros Hmines. unfold generateBoard.
  assert (placeMines size mines rnd (emptyBoard size) 0 []
          = Some (Ok (emptyBoard size, []))) as ->.
  { destruct rnd as [|[row0 col0] rnd]; simpl;
      by destruct (Z.ltb_spec 0 mines); [lia|]. }
  destruct (calculateAdjacent_spec size (emptyBoard size)
              (square_emptyBoard size)) as (b & -> & Hsq & _ & Hcells).
  do 2 f_equal. apply square_all_emptyCell; [done|].
  intros row col c Hc.
  assert (exists c0, cellAt (emptyBoard size) row col = Ok c0) as [c0 Hc0].
  { apply (cellAt_square size _ _ _ (square_emptyBoard size)).
    apply (cellAt_square size b _ _ Hsq). eauto. }
  rewrite (Hcells _ _ _ Hc0) in Hc. injection Hc as <-.
  apply cellAt_emptyBoard in Hc0 as ->. unfold counted. simpl.
  unfold offsetCount.
  rewrite filter_none; [done|].
  intros d [_ Hm]. by rewrite mineAt_emptyBoard in Hm.
Qed.

Lemma generateBoard_without_mines_witness :
  0 <= 0 /\ generateBoard 2 0 smallDraws = Some (Ok (emptyBoard 2)).
Proof.
  assert (0 <= 0) as H by lia.
  split; [exact H|]. exact (generateBoard_without_mines 2 0 smallDraws H).
Defined.

(** The log of the placement loop: the positions drawn, without the ones
    that were mines already, cut after the last mine asked for. *)
Lemma placeMines_log (size mines : Z) (rnd : list (Z * Z)) (b : Board)
    (n : Z) (placed : list (Z * Z)) (b' : Board) (placed' : list (Z * Z)) :
  placeInv size b n placed ->
  placeMines size mines rnd b n placed = Some (Ok (b', placed')) ->
  placed' = placed ++ take (Z.to_nat (mines - n)) (distinctFrom placed rnd).
Proof.
  revert b n placed.
  induction rnd as [|[row col] rnd IH]; intros b n placed Hinv; simpl.
  - destruct (Z.ltb_spec n mines); [done|]. intros [= _ <-].
    by rewrite take_nil, app_nil_r.
  - destruct (Z.ltb_spec n mines) as [Hlt|Hge].
    + destruct (cellAt b _ _) as [c|] eqn:Hc; [|done].
      pose proof Hinv as (_ & _ & _ & _ & _ & Hmem).
      assert (mineAt b (row, col) = mine c) as Hmine
        by (unfold mineAt; simpl; by rewrite Hc).
      destruct (mine c) eqn:Hm; simpl.
      * rewrite decide_True by (by apply Hmem). by apply IH.
      * rewrite decide_False by (rewrite <- Hmem; congruence).
        rewrite (alterCell_Ok _ _ _ _ _ Hc). intros Hrun.
        apply IH in Hrun; [|by eapply placeInv_step].
        rewrite Hrun, <- app_assoc. f_equal.
        replace (Z.to_nat (mines - n)) with (S (Z.to_nat (mines - (n + 1))))
          by lia.
        done.
    + intros [= _ <-]. replace (Z.to_nat (mines - n)) with 0%nat by lia.
      by rewrite take_0, app_nil_r.
Qed.

(** The distinct draws are draws, they are new, and none comes twice. *)
Lemma distinctFrom_spec (seen l : list (Z * Z)) :
  NoDup (distinctFrom seen l) /\
  forall p, p ∈ distinctFrom seen l -> p ∈ l /\ p ∉ seen.
Proof.
  revert seen. induction l as [|q l IH]; intros seen; simpl.
  - split; [constructor|]. intros p Hp. by apply elem_of_nil in Hp.
  - destruct (decide (q ∈ seen)) as [Hq|Hq].
    + destruct (IH seen) as [Hnd Hin]. split; [done|].
      intros p Hp. destruct (Hin p Hp). split; [by right|done].
    + destruct (IH (seen ++ [q])) as [Hnd Hin]. split.
      * constructor; [|done]. intros Hp. destruct (Hin q Hp) as [_ Hout].
        apply Hout, elem_of_app. right. by left.
      * intros p [-> | Hp]%elem_of_cons; [split; [by left|done]|].
        destruct (Hin p Hp) as [Hl Hout]. split; [by right|].
        intros Hs. apply Hout, elem_of_app. by left.
Qed.

(** X13.  Where the placement loop stops reading its random source: for
    draws inside the grid, generateBoard has returned after a sequence of
    draws exactly when [mines] distinct cells are among them, and its loop
    is still running exactly when fewer are; so the loop exits with the
    draw that brings the [mines]-th distinct cell, however many repeated
    draws came before. *)
Theorem generateBoard_runs_until_enough_cells (size mines : Z)
    (rnd : list (Z * Z)) :
  validRnd size rnd ->
  ((exists b, generateBoard size mines rnd = Some (Ok b)) <->
   mines <= Z.of_nat (length (distinctFrom [] rnd))) /\
  (generateBoard size mines rnd = None <->
   Z.of_nat (length (distinctFrom [] rnd)) < mines).
Proof.
  intros Hrnd.
  assert ((exists b, generateBoard size mines rnd = Some (Ok b)) <->
          mines <= Z.of_nat (length (distinctFrom [] rnd))) as Hiff.
  { split.
    - intros [b Hgen].
      destruct (generateBoard_placed _ _ _ _ Hgen)
        as (b0 & placed & Hplace & _ & Hlen & _).
      apply (placeMines_log size mines rnd _ _ _ _ _ (placeInv_init size))
        in Hplace.
      rewrite Hplace in Hlen. simpl in Hlen.
      rewrite Z.sub_0_r, length_take in Hlen. lia.
    - intros Hlen. destruct (distinctFrom_spec [] rnd) as [Hnd Hin].
      apply (generateBoard_returns size mines rnd (distinctFrom [] rnd));
        [done|done| |done].
      intros p Hp. by destruct (Hin p Hp). }
  split; [exact Hiff|].
  destruct (generateBoard size mines rnd) as [[b|e]|] eqn:Hgen.
  - split; [done|]. intros Hlt.
    assert (mines <= Z.of_nat (length (distinctFrom [] rnd))); [|lia].
    apply Hiff. by exists b.
  - by apply generateBoard_no_throw in Hgen.
  - split; [|done]. intros _.
    destruct (Z.lt_ge_cases (Z.of_nat (length (distinctFrom [] rnd))) mines)
      as [Hlt|Hge]; [done|].
    apply Hiff in Hge as [b Hb]. discriminate Hb.
Qed.

Lemma generateBoard_runs_until_enough_cells_witness :
  validRnd 3 smallDraws /\
  distinctFrom [] (take 2 smallDraws) = [(0, 0)] /\
  generateBoard 3 2 (take 2 smallDraws) = None /\
  distinctFrom [] (take 3 smallDraws) = [(0, 0); (2, 2)] /\
  exists b, generateBoard 3 2 (take 3 smallDraws) = Some (Ok b).
Proof.
  split; [exact validRnd_smallDraws|].
  split; [reflexivity|]. split; [|split; [reflexivity|]].
  - apply (generateBoard_runs_until_enough_cells 3 2 (take 2 smallDraws)).
    + apply Forall_take, validRnd_smallDraws.
    + vm_compute. reflexivity.
  - apply (generateBoard_runs_until_enough_cells 3 2 (take 3 smallDraws)).
    + apply Forall_take, validRnd_smallDraws.
    + vm_compute. discriminate.
Defined.

(** X14.  The mines of a board generateBoard returns are the first [mines]
    distinct cells among the draws [Math.floor(Math.random() * size)] of
    its placement loop: the layout is a function of the draws, and a
    repeated draw is skipped. *)
Theorem generateBoard_mines_are_first_draws (size mines : Z)
    (rnd : list (Z * Z)) (b : Board) (p : Z * Z) :
  generateBoard size mines rnd = Some (Ok b) ->
  (mineAt b p = true <->
   p ∈ take (Z.to_nat mines) (distinctFrom [] rnd)).
Proof.
  intros Hgen.
  destruct (generateBoard_placed _ _ _ _ Hgen)
    as (b0 & placed & Hplace & _ & _ & Hmem).
  apply (placeMines_log size mines rnd _ _ _ _ _ (placeInv_init size))
    in Hplace.
  rewrite Hmem, Hplace. simpl. by rewrite Z.sub_0_r.
Qed.

Lemma generateBoard_mines_are_first_draws_witness :
  generateBoard 3 2 smallDraws
  = Some (Ok [[mkCell false true 0 false; mkCell false false 1 false;
               mkCell false false 0 false];
              [mkCell false false 1 false; mkCell false false 2 false;
               mkCell false false 1 false];
              [mkCell false false 0 false; mkCell false false 1 false;
               mkCell false true 0 false]]) /\
  take (Z.to_nat 2) (distinctFrom [] smallDraws) = [(0, 0); (2, 2)] /\
  (2, 2) ∈ take (Z.to_nat 2) (distinctFrom [] smallDraws).
Proof.
  assert (generateBoard 3 2 smallDraws
  = Some (Ok [[mkCell false true 0 false; mkCell false false 1 false;
               mkCell false false 0 false];
              [mkCell false false 1 false; mkCell false false 2 false;
               mkCell false false 1 false];
              [mkCell false false 0 false; mkCell false false 1 false;
               mkCell false true 0 false]])) as H by (vm_compute; reflexivity).
  split_and!; [exact H|vm_compute; reflexivity|].
  exact (proj1 (generateBoard_mines_are_first_draws 3 2 smallDraws _ (2, 2) H)
               eq_refl).
Defined.

Lemma filter_length_mono {A} (P Q : A -> Prop)
    `{!forall x, Decision (P x)} `{!forall x, Decision (Q x)} (l : list A) :
  (forall x, P x -> Q x) ->
  (length (filter P l) <= length (filter Q l))%nat.
Proof.
  intros HPQ. induction l as [|x l IH]; [done|].
  rewrite !filter_cons.
  destruct (decide (P x)) as [HP|], (decide (Q x)) as [|HQ];
    cbn [length]; try lia.
  destruct HQ. by apply HPQ.
Qed.

(** The count of the code is bounded by the number of offsets that can
    stay in the grid. *)
Lemma offsetCount_le (size : Z) (b : Board) (p : Z * Z) (Q : Z * Z -> Prop)
    `{!forall d, Decision (Q d)} :
  (forall d, inGrid size (shift p d) -> Q d) ->
  offsetCount size b p <= Z.of_nat (length (filter Q adjacentCells)).
Proof.
  intros HQ. unfold offsetCount. apply inj_le.
  apply filter_length_mono. intros d [Hin _]. by apply HQ.
Qed.

(** X15.  The bounds check of the count: on a board generateBoard returns,
    a cell on the border of the grid has [adjacentMines] at most 5, and a
    cell in a corner at most 3. *)
Theorem generateBoard_border_counts (size mines : Z) (rnd : list (Z * Z))
    (b : Board) (row col : Z) (c : Cell) :
  generateBoard size mines rnd = Some (Ok b) ->
  cellAt b row col = Ok c ->
  (row = 0 \/ row = size - 1 \/ col = 0 \/ col = size - 1 ->
   adjacentMines c <= 5) /\
  ((row = 0 \/ row = size - 1) /\ (col = 0 \/ col = size - 1) ->
   adjacentMines c <= 3).
Proof.
  intros Hgen Hc.
  destruct (generateBoard_cell _ _ _ _ Hgen row col c Hc) as (_ & _ & ->).
  destruct (mine c); [split; intros _; lia|].
  assert (forall (Q : Z * Z -> Prop) `{!forall d, Decision (Q d)} (k : nat),
            (forall d, inGrid size (shift (row, col) d) -> Q d) ->
            length (filter Q adjacentCells) = k ->
            offsetCount size b (row, col) <= Z.of_nat k) as Hle.
  { intros Q ? k HQ <-. by apply offsetCount_le. }
  unfold inGrid, shift in Hle. simpl in Hle. split.
  - intros [-> | [-> | [-> | ->]]].
    + apply (Hle (fun d => 0 <= d.1) _ 5%nat); [lia|reflexivity].
    + apply (Hle (fun d => d.1 <= 0) _ 5%nat); [lia|reflexivity].
    + apply (Hle (fun d => 0 <= d.2) _ 5%nat); [lia|reflexivity].
    + apply (Hle (fun d => d.2 <= 0) _ 5%nat); [lia|reflexivity].
  - intros [[-> | ->] [-> | ->]].
    + apply (Hle (fun d => 0 <= d.1 /\ 0 <= d.2) _ 3%nat); [lia|reflexivity].
    + apply (Hle (fun d => 0 <= d.1 /\ d.2 <= 0) _ 3%nat); [lia|reflexivity].
    + apply (Hle (fun d => d.1 <= 0 /\ 0 <= d.2) _ 3%nat); [lia|reflexivity].
    + apply (Hle (fun d => d.1 <= 0 /\ d.2 <= 0) _ 3%nat); [lia|reflexivity].
Qed.

Lemma generateBoard_border_counts_witness :
  (generateBoard 10 15 demoDraws = Some (Ok (board demoGame)) /\
   cellAt (board demoGame) 0 8 = Ok (mkCell false false 1 false) /\
   (0 = 0 \/ 0 = 10 - 1 \/ 8 = 0 \/ 8 = 10 - 1)) /\
  adjacentMines (mkCell false false 1 false) <= 5.
Proof.
  assert (generateBoard 10 15 demoDraws = Some (Ok (board demoGame)) /\
          cellAt (board demoGame) 0 8 = Ok (mkCell false false 1 false) /\
          (0 = 0 \/ 0 = 10 - 1 \/ 8 = 0 \/ 8 = 10 - 1)) as H
    by (split_and!; [vm_compute; reflexivity..|by left]).
  split; [exact H|]. destruct H as (H1 & H2 & H3).
  exact (proj1 (generateBoard_border_counts 10 15 demoDraws _ 0 8 _ H1 H2) H3).
Defined.

(** ** What the component renders *)

(** The element the display has at a position is the one [renderCell]
    makes of the cell of the board at that position. *)
Lemma boardDisplay_lookup (b : Board) (i j : nat) (els : list Element)
    (el : Element) :
  boardDisplay b !! i = Some els -> els !! j = Some el ->
  exists cell, cellAt b (Z.of_nat i) (Z.of_nat j) = Ok cell /\
               el = renderCell cell (Z.of_nat i) (Z.of_nat j).
Proof.
  unfold boardDisplay. rewrite list_lookup_imap.
  destruct (b !! i) as [r|] eqn:Hr; [|done]. intros [= <-].
  rewrite list_lookup_imap.
  destruct (r !! j) as [cell|] eqn:Hcell; [|done]. intros [= <-].
  exists cell. split; [|done]. by apply (cellAt_lookup b i j r).
Qed.

Lemma handle_in_grid (st : GameState) (a : action) (row col : Z) (c : Cell) :
  cellAt (board st) row col = Ok c ->
  a = Reveal row col \/ a = ToggleFlag row col ->
  exists st', handle st a = Ok st'.
Proof.
  intros Hc [-> | ->]; simpl.
  - destruct (revealCell st row col) as [st'|[]] eqn:Hcall; [eauto|].
    apply revealCell_Throw_iff in Hcall as (_ & _ & ?). congruence.
  - destruct (toggleFlag st row col) as [st'|[]] eqn:Hcall; [eauto|].
    apply toggleFlag_Throw_iff in Hcall as (_ & _ & ?). congruence.
Qed.

Lemma onKeyDown_cases (row col : Z) (k : string) (a : action) :
  onKeyDown row col k = Some a -> a = Reveal row col \/ a = ToggleFlag row col.
Proof.
  unfold onKeyDown.
  destruct (String.eqb k "Enter" || String.eqb k " ")%bool;
    [intros [= <-]; by left|].
  destruct (String.eqb k "f" || String.eqb k "F")%bool;
    [intros [= <-]; by right|done].
Qed.

(** The keys of [onKeyDown]: Enter and the space reveal, f and F toggle
    the flag, and every other key does nothing. *)
Lemma onKeyDown_keys (row col : Z) :
  (forall k, k = "Enter" \/ k = " " ->
     onKeyDown row col k = Some (Reveal row col)) /\
  (forall k, k = "f" \/ k = "F" ->
     onKeyDown row col k = Some (ToggleFlag row col)) /\
  (forall k, k <> "Enter" -> k <> " " -> k <> "f" -> k <> "F" ->
     onKeyDown row col k = None).
Proof.
  split_and!.
  - by intros k [-> | ->].
  - by intros k [-> | ->].
  - intros k H1 H2 H3 H4. unfold onKeyDown.
    apply String.eqb_neq in H1, H2, H3, H4. by rewrite H1, H2, H3, H4.
Qed.

(** X16.  The handlers of the rendered cells are wired to their own
    position and cannot throw: for the element at row [i] and column [j]
    of the display of a state, a click reveals the cell at [(i, j)], a
    context menu toggles its flag, the keys Enter and space reveal the
    cell at [(i, j)], the keys f and F toggle its flag, every other key
    does nothing, and each of these calls returns normally in that
    state. *)
Theorem rendered_handlers_do_not_throw (st : GameState) (i j : nat)
    (els : list Element) (el : Element) :
  boardDisplay (board st) !! i = Some els -> els !! j = Some el ->
  onClick el = Reveal (Z.of_nat i) (Z.of_nat j) /\
  onContextMenu el = ToggleFlag (Z.of_nat i) (Z.of_nat j) /\
  (forall k, k = "Enter" \/ k = " " ->
     onKey el k = Some (Reveal (Z.of_nat i) (Z.of_nat j))) /\
  (forall k, k = "f" \/ k = "F" ->
     onKey el k = Some (ToggleFlag (Z.of_nat i) (Z.of_nat j))) /\
  (forall k, k <> "Enter" -> k <> " " -> k <> "f" -> k <> "F" ->
     onKey el k = None) /\
  (exists st', handle st (onClick el) = Ok st') /\
  (exists st', handle st (onContextMenu el) = Ok st') /\
  forall k a, onKey el k = Some a -> exists st', handle st a = Ok st'.
Proof.
  intros Hels Hel.
  destruct (boardDisplay_lookup _ _ _ _ _ Hels Hel) as (cell & Hcell & ->).
  unfold renderCell. cbn [onClick onContextMenu onKey].
  destruct (onKeyDown_keys (Z.of_nat i) (Z.of_nat j))
    as (Hreveal & Htoggle & Hother).
  split_and!; [done..| | |].
  - apply (handle_in_grid st _ _ _ cell Hcell). by left.
  - apply (handle_in_grid st _ _ _ cell Hcell). by right.
  - intros k a Ha. apply (handle_in_grid st _ _ _ cell Hcell).
    by apply (onKeyDown_cases _ _ k).
Qed.

Lemma rendered_handlers_do_not_throw_witness :
  (exists els el,
     boardDisplay (board demoGame) !! 9%nat = Some els /\
     els !! 8%nat = Some el /\
     onClick el = Reveal 9 8 /\
     onContextMenu el = ToggleFlag 9 8 /\
     onKey el "Enter" = Some (Reveal 9 8) /\
     onKey el "F" = Some (ToggleFlag 9 8) /\
     onKey el "a" = None /\
     exists st', handle demoGame (onClick el) = Ok st').
Proof.
  destruct (boardDisplay (board demoGame) !! 9%nat) as [els|] eqn:Hels;
    [|vm_compute in Hels; discriminate Hels].
  destruct (els !! 8%nat) as [el|] eqn:Hel.
  - exists els, el.
    destruct (rendered_handlers_do_not_throw demoGame 9 8 els el Hels Hel)
      as (Hclick & Hmenu & Hreveal & Htoggle & Hother & Hok & _).
    split_and!; [reflexivity|exact Hel|exact Hclick|exact Hmenu| | | |exact Hok].
    + apply Hreveal. left. reflexivity.
    + apply Htoggle. right. reflexivity.
    + apply Hother; discriminate.
  - exfalso. revert Hel. vm_compute in Hels. injection Hels as <-.
    vm_compute. discriminate.
Defined.

Lemma renderCell_sameView (c c' : Cell) (row col : Z) :
  sameView c c' -> renderCell c row col = renderCell c' row col.
Proof.
  intros (Hr & Hf & Hm). unfold renderCell, cellClass, cellContent.
  rewrite <- Hr, <- Hf. destruct (revealed c); [|done].
  by destruct (Hm eq_refl) as [<- <-].
Qed.

Lemma imap_Forall2 {A B} (R : A -> A -> Prop) (f : nat -> A -> B)
    (l l' : list A) :
  Forall2 R l l' -> (forall i x y, R x y -> f i x = f i y) ->
  imap f l = imap f l'.
Proof.
  intros Hll. revert f. induction Hll as [|x y l l' Hxy _ IH]; intros f Hf.
  - done.
  - rewrite !imap_cons. f_equal; [by apply Hf|].
    apply IH. intros i. apply Hf.
Qed.

(** X17.  The display hides what is not revealed: two boards whose cells
    agree on [revealed] and [flagged], and on [mine] and [adjacentMines]
    where they are revealed, are rendered the same, whatever the mines and
    the counts of the cells that are not revealed. *)
Theorem display_hides_unrevealed_cells (b b' : Board) :
  Forall2 (Forall2 sameView) b b' -> boardDisplay b = boardDisplay b'.
Proof.
  intros H. unfold boardDisplay.
  apply (imap_Forall2 (Forall2 sameView)); [exact H|].
  intros i r r' Hr. apply (imap_Forall2 sameView); [exact Hr|].
  intros j c c'. apply renderCell_sameView.
Qed.

Lemma display_hides_unrevealed_cells_witness :
  Forall2 (Forall2 sameView)
    [[mkCell false true 0 false; mkCell true false 1 false]]
    [[mkCell false false 1 false; mkCell true false 1 false]] /\
  boardDisplay [[mkCell false true 0 false; mkCell true false 1 false]]
  = boardDisplay [[mkCell false false 1 false; mkCell true false 1 false]].
Proof.
  assert (Forall2 (Forall2 sameView)
            [[mkCell false true 0 false; mkCell true false 1 false]]
            [[mkCell false false 1 false; mkCell true false 1 false]]) as H.
  { repeat constructor; simpl; try discriminate. }
  split; [exact H|]. exact (display_hides_unrevealed_cells _ _ H).
Defined.

(** Two square boards of the same side with nothing revealed and nothing
    flagged look the same. *)
Lemma untouched_sameView (size : Z) (b b' : Board) :
  square size b -> square size b' ->
  (forall row col c, cellAt b row col = Ok c ->
     revealed c = false /\ flagged c = false) ->
  (forall row col c, cellAt b' row col = Ok c ->
     revealed c = false /\ flagged c = false) ->
  Forall2 (Forall2 sameView) b b'.
Proof.
  intros [Hlen Hrows] [Hlen' Hrows'] Hcells Hcells'.
  rewrite Forall_lookup in Hrows, Hrows'.
  apply Forall2_same_length_lookup_2; [congruence|].
  intros i r r' Hr Hr'.
  apply Forall2_same_length_lookup_2.
  { rewrite (Hrows _ _ Hr), (Hrows' _ _ Hr'). done. }
  intros j c c' Hc Hc'.
  destruct (Hcells _ _ _ (cellAt_lookup b i j r c Hr Hc)) as [Hrev Hfl].
  destruct (Hcells' _ _ _ (cellAt_lookup b' i j r' c' Hr' Hc'))
    as [Hrev' Hfl'].
  unfold sameView. rewrite Hrev, Hrev', Hfl, Hfl'. done.
Qed.

Lemma untouched_boards_display (size : Z) (b b' : Board) :
  square size b -> square size b' ->
  (forall row col c, cellAt b row col = Ok c ->
     revealed c = false /\ flagged c = false) ->
  (forall row col c, cellAt b' row col = Ok c ->
     revealed c = false /\ flagged c = false) ->
  boardDisplay b = boardDisplay b'.
Proof.
  intros Hsq Hsq' Hcells Hcells'. unfold boardDisplay.
  apply (imap_Forall2 (Forall2 sameView)).
  - by apply (untouched_sameView size).
  - intros i r r' Hr. apply (imap_Forall2 sameView); [exact Hr|].
    intros j c c'. apply renderCell_sameView.
Qed.

(** X18.  A new game shows nothing of its mines: the displays of two fresh
    games are the same, whatever their random sources. *)
Theorem fresh_games_look_alike (rnd1 rnd2 : list (Z * Z))
    (st1 st2 : GameState) :
  newGame rnd1 = Some (Ok st1) -> newGame rnd2 = Some (Ok st2) ->
  boardDisplay (board st1) = boardDisplay (board st2) /\
  banners st1 = banners st2.
Proof.
  intros H1 H2.
  pose proof (newGame_fresh rnd1 st1 H1)
    as (Ho1 & Hw1 & _ & Hsq1 & _ & _ & Hcells1).
  pose proof (newGame_fresh rnd2 st2 H2)
    as (Ho2 & Hw2 & _ & Hsq2 & _ & _ & Hcells2).
  split.
  - by apply (untouched_boards_display BOARD_SIZE).
  - unfold banners. by rewrite Ho1, Ho2, Hw1, Hw2.
Qed.

Lemma fresh_games_look_alike_witness :
  (newGame demoDraws = Some (Ok demoGame) /\
   newGame (gridPositions 10) = Some (Ok sweptGame)) /\
  board sweptGame <> board demoGame /\
  boardDisplay (board demoGame) = boardDisplay (board sweptGame).
Proof.
  assert (newGame demoDraws = Some (Ok demoGame) /\
          newGame (gridPositions 10) = Some (Ok sweptGame)) as H
    by (split; vm_compute; reflexivity).
  split; [exact H|]. destruct H as [H1 H2].
  split; [vm_compute; discriminate|].
  exact (proj1 (fresh_games_look_alike demoDraws (gridPositions 10) demoGame
                  sweptGame H1 H2)).
Defined.

(** X19.  What a cell shows is true, in every state of the component: the
    mine picture only on a mine and only once the game is lost, a number
    only on a revealed cell that is not a mine and then the number of its
    neighbours that are mines, from 1 to 8, the flag picture only on a
    cell that is not revealed, and nothing on a revealed cell only when it
    is not a mine and has no mine around it. *)
Theorem display_is_truthful (st : GameState) (row col : Z) (c : Cell) :
  reachable st -> cellAt (board st) row col = Ok c ->
  match cellContent c with
  | MineIcon => mine c = true /\ gameOver st = true
  | Number n =>
      revealed c = true /\ mine c = false /\ 1 <= n <= 8 /\
      n = Z.of_nat (length (mineNeighbours BOARD_SIZE (board st) (row, col)))
  | FlagIcon => revealed c = false /\ flagged c = true
  | Empty =>
      revealed c = true ->
      mine c = false /\ mineNeighbours BOARD_SIZE (board st) (row, col) = []
  end.
Proof.
  intros (_ & _ & Hadj & _ & _ & Hloss & _)%reachable_facts Hc.
  pose proof (Hadj row col c Hc) as Hcount.
  pose proof (offsetCount_bounds BOARD_SIZE (board st) (row, col)) as Hb.
  rewrite offsetCount_mineNeighbours in Hcount, Hb.
  unfold cellContent.
  destruct (revealed c) eqn:Hr; [|by destruct (flagged c)].
  destruct (mine c) eqn:Hm.
  - split; [done|]. apply Hloss. by exists row, col, c.
  - destruct (Z.ltb_spec 0 (adjacentMines c)) as [Hpos|Hzero].
    + split_and!; [done|done|lia|lia|done].
    + intros _. split; [done|].
      destruct (mineNeighbours _ _ _); [done|]. simpl in *. lia.
Qed.

Lemma display_is_truthful_witness :
  (reachable demoLost /\
   cellAt (board demoLost) 0 9 = Ok (mkCell true true 0 false)) /\
  cellContent (mkCell true true 0 false) = MineIcon /\
  gameOver demoLost = true.
Proof.
  assert (reachable demoLost /\
          cellAt (board demoLost) 0 9 = Ok (mkCell true true 0 false)) as H.
  { split; [|vm_compute; reflexivity].
    exact (reachable_dispatch demoGame (Reveal 0 9) reachable_demoGame). }
  split; [exact H|]. destruct H as [H1 H2]. split; [reflexivity|].
  exact (proj2 (display_is_truthful demoLost 0 9 _ H1 H2)).
Defined.

(** X20.  The keys of the cells of a rendered row are pairwise distinct,
    as React asks of the elements of an array. *)
Theorem display_keys_are_distinct (b : Board) (i : nat)
    (els : list Element) :
  boardDisplay b !! i = Some els -> NoDup (key <$> els).
Proof.
  intros Hels. apply NoDup_alt. intros j1 j2 k.
  rewrite !list_lookup_fmap.
  destruct (els !! j1) as [el1|] eqn:H1; [|done].
  destruct (els !! j2) as [el2|] eqn:H2; [|done].
  destruct (boardDisplay_lookup _ _ _ _ _ Hels H1) as (c1 & _ & ->).
  destruct (boardDisplay_lookup _ _ _ _ _ Hels H2) as (c2 & _ & ->).
  simpl. intros [= <-] [= Heq].
  apply (inj (String.append _)), (inj (String.append _)) in Heq.
  apply (inj pretty) in Heq. lia.
Qed.

Lemma display_keys_are_distinct_witness :
  boardDisplay [[emptyCell; emptyCell]; [emptyCell; emptyCell]] !! 1%nat
  = Some [renderCell emptyCell 1 0; renderCell emptyCell 1 1] /\
  NoDup (key <$> [renderCell emptyCell 1 0; renderCell emptyCell 1 1]).
Proof.
  assert (boardDisplay [[emptyCell; emptyCell]; [emptyCell; emptyCell]]
            !! 1%nat
          = Some [renderCell emptyCell 1 0; renderCell emptyCell 1 1]) as H
    by reflexivity.
  split; [exact H|]. exact (display_keys_are_distinct _ 1 _ H).
Defined.

(** X21.  In every state of the component at most one banner is shown:
    none while the game is on, the game over banner when a mine is
    revealed, the congratulations otherwise. *)
Theorem banners_are_exclusive (st : GameState) :
  reachable st ->
  (banners st = [] /\ gameOver st = false /\ gameWon st = false) \/
  (banners st = ["Game Over! You hit a mine."] /\ mineRevealed (board st)) \/
  (banners st = ["Congratulations! You won!"] /\
   allNonMinesRevealed (board st) /\ ~ mineRevealed (board st)).
Proof.
  intros (_ & _ & _ & _ & _ & Hloss & Hwin & Hex)%reachable_facts.
  unfold banners.
  destruct (gameOver st) eqn:Ho, (gameWon st) eqn:Hw.
  - by specialize (Hex eq_refl).
  - right. left. split; [done|]. by apply Hloss.
  - right. right. split; [done|]. split; [by apply Hwin|].
    intros Hm%Hloss. done.
  - left. done.
Qed.

Lemma banners_are_exclusive_witness :
  reachable (run demoGame demoWinningActs) /\
  banners (run demoGame demoWinningActs) = ["Congratulations! You won!"].
Proof.
  assert (reachable (run demoGame demoWinningActs)) as H
    by exact (reachable_run demoGame demoWinningActs reachable_demoGame).
  split; [exact H|].
  destruct (banners_are_exclusive _ H) as [[Hb _]|[[Hb _]|[Hb _]]].
  - vm_compute in Hb. discriminate Hb.
  - vm_compute in Hb. discriminate Hb.
  - exact Hb.
Defined.



Lemma layout_is_immutable_witness :
  cellAt (board demoGame) 0 9 = Ok (mkCell false true 0 false) /\
  layout (board (run demoGame demoWinningActs)) = layout (board demoGame) /\
  exists c', cellAt (board (run demoGame demoWinningActs)) 0 9 = Ok c' /\
             mine c' = true.
Proof.
  assert (cellAt (board demoGame) 0 9 = Ok (mkCell false true 0 false)) as H
    by (vm_compute; reflexivity).
  split; [exact H|].
  destruct (layout_is_immutable demoGame demoWinningActs) as [Hlay Hcells].
  split; [exact Hlay|].
  destruct (Hcells 0 9 _ H) as (c' & Hc' & Hm & _).
  exists c'. split; [exact Hc'|exact Hm].
Defined.

(** ** Winning *)

Lemma run_revealed_frozen (st : GameState) (acts : list action)
    (row col : Z) (c : Cell) :
  cellAt (board st) row col = Ok c -> revealed c = true ->
  cellAt (board (run st acts)) row col = Ok c.
Proof.
  intros Hc Hr. apply (run_invariant
    (fun st' => cellAt (board st') row col = Ok c)); [|done].
  intros st' a Hc'. by apply dispatch_revealed_frozen.
Qed.

Lemma run_layout (st : GameState) (acts : list action) :
  layout (board (run st acts)) = layout (board st).
Proof.
  apply (run_invariant (fun st' => layout (board st') = layout (board st)));
    [|done].
  intros st' a <-. apply dispatch_layout.
Qed.

(** Revealing a cell that is not a mine keeps the game on and leaves the
    cell revealed. *)
Lemma safePlay_reveal (b0 : Board) (st : GameState) (row col : Z) :
  safePlay b0 st -> mineAt b0 (row, col) = false ->
  safePlay b0 (dispatch st (Reveal row col)) /\
  forall c, cellAt (board (dispatch st (Reveal row col))) row col = Ok c ->
    revealed c = true.
Proof.
  intros (Hreach & Ho & Hlay & Hnf) Hsafe.
  rewrite <- (layout_mineAt _ _ _ Hlay) in Hsafe.
  pose proof (reachable_facts st Hreach)
    as (_ & _ & _ & _ & _ & _ & Hwin & _).
  destruct (dispatch_reveal st row col)
    as [[-> Hwhy]|(c & _ & _ & Hc & _ & _ & Heq)].
  - split; [done|]. intros c Hc.
    destruct Hwhy as [?|[Hw|[?|(c' & Hc' & [Hr|Hf])]]]; try congruence.
    + apply (Hwin Ho) in Hw. unfold mineAt in Hsafe. simpl in Hsafe.
      rewrite Hc in Hsafe. destruct (Hw row col c Hc); congruence.
    + rewrite (Hnf row col c') in Hf; congruence.
  - unfold mineAt in Hsafe. simpl in Hsafe. rewrite Hc in Hsafe.
    rewrite Hsafe in Heq. cbn zeta in Heq.
    assert (board (dispatch st (Reveal row col))
            = revealedBoard (board st) row col /\
            gameOver (dispatch st (Reveal row col)) = false) as [Hb Ho'].
    { rewrite Heq. by destruct (allSafeRevealed _). }
    split.
    + split_and!; [by apply reachable_dispatch|done| |].
      * by rewrite dispatch_layout.
      * intros r k c'. rewrite Hb. unfold revealedBoard.
        rewrite (cellAt_alter _ _ _ _ _ r k Hc).
        case_decide; [intros [= <-]; simpl; by apply (Hnf row col)|].
        apply Hnf.
    + intros c'. rewrite Hb. unfold revealedBoard.
      rewrite (cellAt_alter_eq _ _ _ _ _ Hc). by intros [= <-].
Qed.

Lemma safePlay_run (b0 : Board) (acts : list action) (st : GameState) :
  safePlay b0 st ->
  (forall a, a ∈ acts ->
     exists row col, a = Reveal row col /\ mineAt b0 (row, col) = false) ->
  safePlay b0 (run st acts) /\
  forall row col c, Reveal row col ∈ acts ->
    cellAt (board (run st acts)) row col = Ok c -> revealed c = true.
Proof.
  revert st. induction acts as [|a acts IH]; intros st Hst Hacts.
  - split; [done|]. by intros row col c ?%elem_of_nil.
  - destruct (Hacts a) as (row & col & -> & Hsafe); [left|].
    destruct (safePlay_reveal b0 st row col Hst Hsafe) as [Hst1 Hrev1].
    destruct (IH (dispatch st (Reveal row col)) Hst1) as [Hend Hrev].
    { intros a Ha. apply Hacts. by right. }
    change (run st (Reveal row col :: acts))
      with (run (dispatch st (Reveal row col)) acts).
    split; [done|]. intros r k c [[= -> ->]|Hin]%elem_of_cons Hc;
      [|by apply (Hrev r k)].
    destruct (layout_cellAt _ (board (dispatch st (Reveal row col))) _ _ c
                (run_layout _ acts) Hc) as (c1 & Hc1 & _).
    pose proof (Hrev1 c1 Hc1) as Hr1.
    rewrite (run_revealed_frozen _ acts _ _ c1 Hc1 Hr1) in Hc.
    congruence.
Qed.

(** X23.  A game can always be won: from a fresh game, revealing the cells
    that are not mines, each at least once and in any order, and nothing
    else, ends with [gameWon] set and [gameOver] not set. *)
Theorem revealing_all_safe_cells_wins (rnd : list (Z * Z))
    (st0 : GameState) (acts : list action) :
  newGame rnd = Some (Ok st0) ->
  (forall a, a ∈ acts ->
     exists row col, a = Reveal row col /\
                     mineAt (board st0) (row, col) = false) ->
  (forall row col c, cellAt (board st0) row col = Ok c -> mine c = false ->
     Reveal row col ∈ acts) ->
  gameWon (run st0 acts) = true /\ gameOver (run st0 acts) = false.
Proof.
  intros Hnew Hsafe Hall.
  pose proof (newGame_fresh rnd st0 Hnew) as (Ho & _ & _ & _ & _ & _ & Hcells).
  assert (safePlay (board st0) st0) as Hst0.
  { split_and!; [by apply (reachable_new rnd)|done|done|].
    intros row col c Hc. by destruct (Hcells row col c Hc). }
  destruct (safePlay_run (board st0) acts st0 Hst0 Hsafe)
    as [(Hreach & Ho' & Hlay & _) Hrev].
  split; [|done].
  pose proof (reachable_facts _ Hreach) as (_ & _ & _ & _ & _ & _ & Hwin & _).
  apply (Hwin Ho'). intros row col c Hc.
  destruct (mine c) eqn:Hm; [by right|]. left.
  apply (Hrev row col c); [|done].
  destruct (layout_cellAt _ _ _ _ c Hlay Hc) as (c0 & Hc0 & Hm0 & _).
  apply (Hall row col c0 Hc0). congruence.
Qed.

Lemma square_demoGame : square 10 (board demoGame).
Proof.
  assert (generateBoard 10 15 demoDraws = Some (Ok (board demoGame))) as Hgen
    by (vm_compute; reflexivity).
  exact (generateBoard_square 10 15 demoDraws (board demoGame) Hgen).
Defined.

Lemma revealing_all_safe_cells_wins_witness :
  (newGame demoDraws = Some (Ok demoGame) /\
   (forall a, a ∈ demoWinningActs ->
      exists row col, a = Reveal row col /\
                      mineAt (board demoGame) (row, col) = false) /\
   (forall row col c, cellAt (board demoGame) row col = Ok c ->
      mine c = false -> Reveal row col ∈ demoWinningActs)) /\
  gameWon (run demoGame demoWinningActs) = true /\
  gameOver (run demoGame demoWinningActs) = false.
Proof.
  assert (newGame demoDraws = Some (Ok demoGame) /\
          (forall a, a ∈ demoWinningActs ->
             exists row col, a = Reveal row col /\
                             mineAt (board demoGame) (row, col) = false) /\
          (forall row col c, cellAt (board demoGame) row col = Ok c ->
             mine c = false -> Reveal row col ∈ demoWinningActs)) as H.
  { split_and!; [exact newGame_demoDraws| |].
    - intros a ([row col] & -> & [Hm _]%list_elem_of_filter)%list_elem_of_fmap.
      exists row, col. split; [reflexivity|exact Hm].
    - intros row col c Hc Hm. unfold demoWinningActs.
      apply (list_elem_of_fmap_2' _ _ (row, col)); [|reflexivity].
      apply list_elem_of_filter. split.
      + unfold mineAt. cbn [fst snd]. rewrite Hc. exact Hm.
      + apply elem_of_gridPositions.
        apply (cellAt_square 10 (board demoGame) row col);
          [exact square_demoGame|].
        exists c. exact Hc. }
  split; [exact H|]. destruct H as (H1 & H2 & H3).
  exact (revealing_all_safe_cells_wins demoDraws demoGame demoWinningActs
           H1 H2 H3).
Defined.
